(** * AceRoutine command-line dispatcher

    A verification development for
    [src/ace_routine/cli/CommandDispatcher.h]: the tokenizer built on
    [strtok], the dispatch-table lookup, the built-in [help] command and
    the line-reading coroutine with its overflow recovery.

    Modelling conventions.
    - A [char] is an [ascii]; a [char*] into the mutable line buffer is
      an offset ([nat]) into a [list ascii]; the C string at an offset is
      read with [c_str], which stops at the first NUL (or at the end of
      the list, which stands for the terminator that ends the buffer).
    - A [const char*] to an immutable string (a command name, a help
      string, a literal) is modelled by the characters before its
      terminator.
    - Output on [Serial] and calls of command handlers are collected, in
      program order, in a list of events. *)

From Stdlib Require Import Ascii String NArith Lia.
From stdpp Require Import base list strings.

Local Open Scope nat_scope.

(** ** C strings *)

Definition NUL : ascii := Ascii.zero.

(** The characters of a literal. *)
Definition chars (s : string) : list ascii := list_ascii_of_string s.

(** Characters of [s] before the first NUL. *)
Fixpoint until_nul (s : list ascii) : list ascii :=
  match s with
  | [] => []
  | c :: s' => if Ascii.eqb c NUL then [] else c :: until_nul s'
  end.

(** The C string that starts at offset [p] of [buf]. *)
Definition c_str (buf : list ascii) (p : nat) : list ascii :=
  until_nul (drop p buf).

(** [*(buf + p)]; past the end of the list one reads the terminator. *)
Definition char_at (buf : list ascii) (p : nat) : ascii :=
  default NUL (buf !! p).

(** [strcmp(a, b) == 0] on string contents. *)
Definition strcmp_eq (a b : list ascii) : bool :=
  bool_decide (a = b).

(** ** The tokenizer: [strtok] and [tokenize] *)

Section Tokenizer.

(** The delimiter string handed to [strtok]. *)
Variable delims : list ascii.

(** Membership in the delimiter string; its terminator is no member. *)
Definition is_delim (c : ascii) : bool :=
  existsb (Ascii.eqb c) (until_nul delims).

(** [strspn(s, delims)]: length of the leading run of delimiters. *)
Fixpoint strspn (s : list ascii) : nat :=
  match s with
  | [] => 0
  | c :: s' => if is_delim c then S (strspn s') else 0
  end.

(** [strcspn(s, delims)]: length of the leading run of characters that
    are neither a delimiter nor the terminator. *)
Fixpoint strcspn (s : list ascii) : nat :=
  match s with
  | [] => 0
  | c :: s' =>
      if Ascii.eqb c NUL || is_delim c then 0 else S (strcspn s')
  end.

(** The memory [strtok] works on: the line buffer and the library's
    saved position. *)
Record strtok_mem : Type := StrtokMem {
  buf : list ascii;
  save_ptr : nat
}.

(** [strtok(s, delims)] of the C library; [s = None] is the call with a
    null pointer, which resumes at the saved position. It skips the
    delimiters in front, returns null at the terminator, and otherwise
    ends the token at the next delimiter, which it overwrites with a
    terminator, or at the terminator of the string. The result is the
    offset of the token, or [None] for a null result. *)
Definition strtok (s : option nat) (m : strtok_mem)
  : option nat * strtok_mem :=
  let s0 := match s with Some p => p | None => save_ptr m end in
  let b := s0 + strspn (drop s0 (buf m)) in
  if Ascii.eqb (char_at (buf m) b) NUL then
    (None, StrtokMem (buf m) b)
  else
    let e := b + strcspn (drop b (buf m)) in
    if Ascii.eqb (char_at (buf m) e) NUL then
      (Some b, StrtokMem (buf m) e)
    else
      (Some b, StrtokMem (<[e := NUL]> (buf m)) (S e)).

(** The loop of [tokenize]; [room] is [argvSize - argc], the number
    of free slots of [argv]. It returns the slots filled from here. *)
Fixpoint tokenize_loop (room : nat) (token : option nat) (m : strtok_mem)
  : list nat * strtok_mem :=
  match token, room with
  | Some t, S room' =>
      let '(token', m') := strtok None m in
      let '(argv, m'') := tokenize_loop room' token' m' in
      (t :: argv, m'')
  | _, _ => ([], m)
  end.

(** [tokenize(line, argvSize, argv)]: the count, the filled part of
    [argv] and the line buffer as the call leaves it. *)
Definition tokenize (line : list ascii) (argvSize : nat)
  : nat * list nat * list ascii :=
  let '(token, m) := strtok (Some 0) (StrtokMem line 0) in
  let '(argv, m') := tokenize_loop argvSize token m in
  (length argv, argv, buf m').

(** The strings a handler sees through [argv]. *)
Definition tokens (line : list ascii) (argvSize : nat)
  : list (list ascii) :=
  let '(_, argv, buf') := tokenize line argvSize in
  map (c_str buf') argv.

(** *** Tokens as the specification defines them *)

(** A finished run is emitted unless it is empty. *)
Definition emit (cur : list ascii) : list (list ascii) :=
  match cur with [] => [] | _ => [cur] end.

(** The maximal runs of non-delimiter characters of [s], in order;
    [cur] is the run being read. *)
Fixpoint split_runs (cur s : list ascii) : list (list ascii) :=
  match s with
  | [] => emit cur
  | c :: s' =>
      if is_delim c then emit cur ++ split_runs [] s'
      else split_runs (cur ++ [c]) s'
  end.

Definition words (s : list ascii) : list (list ascii) :=
  split_runs [] s.

End Tokenizer.

(** ** The dispatcher *)

(** Maximum number of tokens for a command including flags. *)
Definition ARGV_SIZE : nat := 10.

Definition STATUS_SUCCESS : N := 0.
Definition STATUS_BUFFER_OVERFLOW : N := 1.
Definition STATUS_FLUSH_TO_EOL : N := 2.

Definition TAB : ascii := ascii_of_nat 9.

(** Modelled from the spec: the value of the static member [DELIMS],
    which the class only declares; the specification gives the delimiter
    set as space and tab. *)
Definition DELIMS : list ascii := [" "%char; TAB].

(** What [Print::println] writes after its argument. *)
Definition CRLF : list ascii := [ascii_of_nat 13; ascii_of_nat 10].

Section Dispatcher.

(** A handler is a function pointer; the model keeps its identity and
    records each call. *)
Variable CommandHandler : Type.

Record DispatchRecord : Type := mkDispatchRecord {
  handler : CommandHandler;
  name : list ascii;
  helpString : list ascii
}.

Inductive event : Type :=
| Serial_print (s : list ascii)
| Serial_println (s : list ascii)
| Handler_call (h : CommandHandler) (argc : nat)
    (argv : list (list ascii)).

(** The text that a run of events leaves on the serial port; what a
    handler prints itself is outside the model. *)
Fixpoint serial_text (evs : list event) : list ascii :=
  match evs with
  | [] => []
  | Serial_print s :: evs' => s ++ serial_text evs'
  | Serial_println s :: evs' => s ++ CRLF ++ serial_text evs'
  | Handler_call _ _ _ :: evs' => serial_text evs'
  end.

(** The handlers called, in order, with their arguments. *)
Fixpoint handler_calls (evs : list event)
  : list (CommandHandler * nat * list (list ascii)) :=
  match evs with
  | [] => []
  | Handler_call h argc argv :: evs' =>
      (h, argc, argv) :: handler_calls evs'
  | _ :: evs' => handler_calls evs'
  end.

(** The branch [printLineError] takes for a status code. *)
Inductive line_error_branch : Type :=
| BufferOverflow_branch
| FlushToEOL_branch
| UnknownError_branch.

Definition printLineError_branch (statusCode : N) : line_error_branch :=
  if N.eqb statusCode STATUS_BUFFER_OVERFLOW then BufferOverflow_branch
  else if N.eqb statusCode STATUS_FLUSH_TO_EOL then FlushToEOL_branch
  else UnknownError_branch.

Definition printLineError (line : list ascii) (statusCode : N)
  : list event :=
  match printLineError_branch statusCode with
  | BufferOverflow_branch =>
      [Serial_print (chars "BufferOverflow: ");
       Serial_println (c_str line 0)]
  | FlushToEOL_branch =>
      [Serial_print (chars "FlushToEOL: ");
       Serial_println (c_str line 0)]
  | UnknownError_branch =>
      [Serial_println (chars "UnknownError")]
  end.

(** The dispatch table: the [mNumCommands] records of [mDispatchTable],
    in array order. *)
Variable mDispatchTable : list DispatchRecord.

(** The scan of [helpCommandHandler] over the records from the current
    index on, and the code after the loop. *)
Fixpoint help_scan (records : list DispatchRecord) (cmd : list ascii)
  : list event :=
  match records with
  | [] => [Serial_print (chars "Unknown command: "); Serial_println cmd]
  | record :: rest =>
      if strcmp_eq (name record) cmd then
        [Serial_print (chars "Usage: "); Serial_print cmd;
         Serial_print [" "%char]; Serial_println (helpString record)]
      else help_scan rest cmd
  end.

(** Handle the 'help' command. *)
Definition helpCommandHandler (argc : nat) (argv : list (list ascii))
  : list event :=
  if argc =? 2 then
    let cmd := default [] (argv !! 1) in
    if strcmp_eq cmd (chars "help") then
      [Serial_println (chars "Usage: help [command]")]
    else help_scan mDispatchTable cmd
  else
    [Serial_println (chars "Usage: help [command]");
     Serial_print (chars "Commands: help ")]
    ++ flat_map (fun record =>
                   [Serial_print (name record); Serial_print [" "%char]])
         mDispatchTable
    ++ [Serial_println []].

(** The scan of [runCommand] over the records from the current index
    on, and the code after the loop. *)
Fixpoint dispatch_scan (records : list DispatchRecord) (cmd : list ascii)
    (argc : nat) (argv : list (list ascii)) : list event :=
  match records with
  | [] => [Serial_print (chars "Unknown command: "); Serial_println cmd]
  | record :: rest =>
      if strcmp_eq (name record) cmd then
        [Handler_call (handler record) argc argv]
      else dispatch_scan rest cmd argc argv
  end.

(** Tokenize the given line and run the command handler. The strings
    of [argv] are read from the buffer as [tokenize] leaves it. *)
Definition runCommand (line : list ascii) : list event :=
  let '(argc, argv, line') := tokenize DELIMS line ARGV_SIZE in
  let argv := map (c_str line') argv in
  if argc =? 0 then []
  else
    let cmd := default [] (argv !! 0) in
    if strcmp_eq cmd (chars "help") then helpCommandHandler argc argv
    else dispatch_scan mDispatchTable cmd argc argv.

(** *** The coroutine *)

(** Modelled from the spec: the macros [COROUTINE_LOOP] and
    [COROUTINE_AWAIT] of the coroutine library, which this file only
    uses. The loop runs forever, and an await suspends the coroutine at
    that place until its condition holds. So the coroutine rests at one
    of the two places where [runRoutine] awaits [getLine]: at the top of
    the loop, and inside the loop that flushes an oversized line. *)
Inductive state : Type :=
| AWAIT_LINE
| RECOVER_OVERFLOW.

(** Modelled from the spec: [SerialReader::getLine], the line source,
    which this file only calls. One call gives [None] when no line is
    ready, so that the coroutine yields and asks again on its next run;
    otherwise [isError] (the line did not fit the buffer) and the
    line. *)
Definition poll : Type := option (bool * list ascii).

(** The outcomes of the line source as the specification names them. *)
Inductive ReadOutcome : Type :=
| Success (line : list ascii)
| Overflow (partialLine : list ascii).

Definition poll_of (o : ReadOutcome) : poll :=
  match o with
  | Success line => Some (false, line)
  | Overflow partialLine => Some (true, partialLine)
  end.

(** The member functions [runRoutine] calls. *)
Inductive call : Type :=
| Call_printLineError (line : list ascii) (statusCode : N)
| Call_runCommand (line : list ascii).

Definition perform (c : call) : list event :=
  match c with
  | Call_printLineError line statusCode => printLineError line statusCode
  | Call_runCommand line => runCommand line
  end.

(** [runRoutine] from one await to the next: the calls it makes when
    [getLine] answers [r] at await point [st], and the await point it
    stops at. *)
Definition runRoutine_calls (st : state) (r : poll) : state * list call :=
  match r with
  | None => (st, [])
  | Some (isError, line) =>
      match st with
      | AWAIT_LINE =>
          if isError then
            (RECOVER_OVERFLOW,
             [Call_printLineError line STATUS_BUFFER_OVERFLOW])
          else (AWAIT_LINE, [Call_runCommand line])
      | RECOVER_OVERFLOW =>
          (if isError then RECOVER_OVERFLOW else AWAIT_LINE,
           [Call_printLineError line STATUS_FLUSH_TO_EOL])
      end
  end.

Definition runRoutine (st : state) (r : poll) : state * list event :=
  let '(st', cs) := runRoutine_calls st r in
  (st', flat_map perform cs).

(** The coroutine run against a sequence of [getLine] results. *)
Fixpoint run_calls (st : state) (rs : list poll) : state * list call :=
  match rs with
  | [] => (st, [])
  | r :: rs' =>
      let '(st1, cs1) := runRoutine_calls st r in
      let '(st2, cs2) := run_calls st1 rs' in
      (st2, cs1 ++ cs2)
  end.

Fixpoint run (st : state) (rs : list poll) : state * list event :=
  match rs with
  | [] => (st, [])
  | r :: rs' =>
      let '(st1, evs1) := runRoutine st r in
      let '(st2, evs2) := run st1 rs' in
      (st2, evs1 ++ evs2)
  end.

(** The coroutine fed a sequence of outcomes of the line source. *)
Definition feed (st : state) (os : list ReadOutcome)
  : state * list event :=
  run st (map poll_of os).

End Dispatcher.

Arguments mkDispatchRecord {CommandHandler} _ _ _.
Arguments handler {CommandHandler} _.
Arguments name {CommandHandler} _.
Arguments helpString {CommandHandler} _.
Arguments Serial_print {CommandHandler} _.
Arguments Serial_println {CommandHandler} _.
Arguments Handler_call {CommandHandler} _ _ _.
Arguments serial_text {CommandHandler} _.
Arguments handler_calls {CommandHandler} _.
Arguments printLineError {CommandHandler} _ _.
Arguments help_scan {CommandHandler} _ _.
Arguments helpCommandHandler {CommandHandler} _ _ _.
Arguments dispatch_scan {CommandHandler} _ _ _ _.
Arguments runCommand {CommandHandler} _ _.
Arguments perform {CommandHandler} _ _.
Arguments runRoutine {CommandHandler} _ _ _.
Arguments run {CommandHandler} _ _ _.
Arguments feed {CommandHandler} _ _ _.

(** ** Predicates of the statements *)

Definition nul_free (w : list ascii) : bool :=
  forallb (fun c => negb (Ascii.eqb c NUL)) w.

Definition delim_free (delims w : list ascii) : bool :=
  forallb (fun c => negb (is_delim delims c)) w.

Definition all_delims (delims w : list ascii) : bool :=
  forallb (is_delim delims) w.

(** A string that can be a token: not empty, and free of terminators and
    delimiters. *)
Definition is_token (delims w : list ascii) : bool :=
  match w with [] => false | _ => nul_free w && delim_free delims w end.

(** A line laid out from its tokens: each token with the run of
    delimiters that follows it. *)
Fixpoint layout (ws : list (list ascii * list ascii)) : list ascii :=
  match ws with
  | [] => []
  | (w, sep) :: ws' => w ++ sep ++ layout ws'
  end.

(** The layout is proper: every first component is a token, every second
    one a run of delimiters, empty at most after the last token. *)
Fixpoint well_separated (delims : list ascii)
    (ws : list (list ascii * list ascii)) : bool :=
  match ws with
  | [] => true
  | (w, sep) :: ws' =>
      is_token delims w && all_delims delims sep
      && match ws', sep with _ :: _, [] => false | _, _ => true end
      && well_separated delims ws'
  end.

(** The events of an "Unknown command" diagnostic. *)
Definition unknown_command {CommandHandler : Type} (cmd : list ascii)
  : list (event CommandHandler) :=
  [Serial_print (chars "Unknown command: "); Serial_println cmd].

(** The events of the banner of [help]. *)
Definition help_banner {CommandHandler : Type}
    (table : list (DispatchRecord CommandHandler))
  : list (event CommandHandler) :=
  [Serial_println (chars "Usage: help [command]");
   Serial_print (chars "Commands: help ")]
  ++ flat_map (fun record =>
                 [Serial_print (name record); Serial_print [" "%char]])
       table
  ++ [Serial_println []].

(** No record in front of index [i] carries the name [n]. *)
Definition first_named {CommandHandler : Type}
    (table : list (DispatchRecord CommandHandler)) (i : nat)
    (n : list ascii) : Prop :=
  forall j e, j < i -> table !! j = Some e -> name e <> n.

(** The state of [strtok] while it works through [line]: the buffer has
    the length of the line; the saved position lies inside the string of
    the line, in front of its terminator; behind the saved position the
    buffer still is the line; and in front of it a byte is the byte of
    the line, or a terminator where the line has a delimiter. *)
Definition strtok_inv (delims line : list ascii) (m : strtok_mem) : Prop :=
  length (buf m) = length line
  /\ save_ptr m <= length line
  /\ nul_free (take (save_ptr m) line) = true
  /\ drop (save_ptr m) (buf m) = drop (save_ptr m) line
  /\ forall i,
       buf m !! i = line !! i
       \/ (is_delim delims (char_at line i) = true
           /\ buf m !! i = Some NUL).

(** The token at offset [t] of the buffer of [m] is the [j] characters
    of [line] at that offset, and its terminator lies in front of the
    saved position or at it. *)
Definition token_view (line : list ascii) (m : strtok_mem) (t j : nat)
  : Prop :=
  0 < j /\ t + j <= length line /\ t + j <= save_ptr m
  /\ c_str (buf m) t = take j (drop t line)
  /\ char_at (buf m) (t + j) = NUL.

(** The lines that a sequence of [getLine] results delivers. *)
Definition ready (rs : list poll) : list (bool * list ascii) :=
  omap id rs.

(** The line a call of [runRoutine] is made on. *)
Definition call_line (c : call) : list ascii :=
  match c with
  | Call_printLineError line _ => line
  | Call_runCommand line => line
  end.

(** The await point that a delivered line leaves the coroutine at. *)
Definition state_after (st : state) (r : option (bool * list ascii))
  : state :=
  match r with
  | None => st
  | Some (true, _) => RECOVER_OVERFLOW
  | Some (false, _) => AWAIT_LINE
  end.

(** * Facts *)

(** ** C strings *)

Lemma until_nul_app_nul (l1 l2 : list ascii) :
  until_nul (l1 ++ NUL :: l2) = until_nul l1.
Proof.
  induction l1 as [|c l1 IH]; simpl; [reflexivity|].
  destruct (Ascii.eqb c NUL); [reflexivity|]. now rewrite IH.
Qed.

Lemma until_nul_app (l1 l2 : list ascii) :
  nul_free l1 = true -> until_nul (l1 ++ l2) = l1 ++ until_nul l2.
Proof.
  induction l1 as [|c l1 IH]; simpl; [reflexivity|].
  intros [Hc Hl]%andb_prop.
  destruct (Ascii.eqb c NUL); [discriminate|]. now rewrite IH.
Qed.

Lemma until_nul_nul_free (l : list ascii) :
  nul_free l = true -> until_nul l = l.
Proof.
  intros H. rewrite <- (app_nil_r l) at 1.
  rewrite until_nul_app by assumption. simpl. apply app_nil_r.
Qed.

Lemma nul_free_until_nul (s : list ascii) : nul_free (until_nul s) = true.
Proof.
  induction s as [|c s IH]; simpl; [reflexivity|].
  destruct (Ascii.eqb c NUL) eqn:E; simpl; [reflexivity|].
  now rewrite E, IH.
Qed.

Lemma until_nul_not_in (s : list ascii) : ~ In NUL (until_nul s).
Proof.
  induction s as [|c s IH]; simpl; [tauto|].
  destruct (Ascii.eqb c NUL) eqn:E; simpl; [tauto|].
  intros [H|H]; [|tauto]. subst c. discriminate.
Qed.

Lemma char_at_drop (l : list ascii) (p k : nat) :
  char_at (drop p l) k = char_at l (p + k).
Proof. unfold char_at. now rewrite lookup_drop. Qed.

Lemma char_at_cons (c : ascii) (l : list ascii) (i : nat) :
  char_at (c :: l) (S i) = char_at l i.
Proof. reflexivity. Qed.

(** A write behind a terminator does not change the string in front. *)
Lemma c_str_insert_after (l : list ascii) (q i e : nat) (x : ascii) :
  q <= i < e -> char_at l i = NUL ->
  c_str (<[e := x]> l) q = c_str l q.
Proof.
  unfold c_str. revert q i e.
  induction l as [|c l IH]; intros q i e [Hqi Hie] Hnul; [reflexivity|].
  destruct e as [|e]; [lia|]. simpl.
  destruct q as [|q]; simpl.
  - destruct (Ascii.eqb c NUL) eqn:E; [reflexivity|].
    destruct i as [|i].
    + unfold char_at in Hnul. simpl in Hnul. subst c. discriminate.
    + f_equal. apply (IH 0 i e); [lia|exact Hnul].
  - destruct i as [|i]; [lia|].
    apply (IH q i e); [lia|exact Hnul].
Qed.

Lemma char_at_insert_ne (l : list ascii) (i e : nat) (x : ascii) :
  i <> e -> char_at (<[e := x]> l) i = char_at l i.
Proof.
  intros H. unfold char_at. now rewrite list_lookup_insert_ne by lia.
Qed.

(** ** Delimiters and runs *)

Section TokenizerFacts.

Variable delims : list ascii.

Local Abbreviation is_delim' := (is_delim delims).
Local Abbreviation words' := (words delims).
Local Abbreviation split_runs' := (split_runs delims).

Lemma is_delim_NUL : is_delim' NUL = false.
Proof.
  destruct (is_delim' NUL) eqn:E; [|reflexivity].
  apply existsb_exists in E as (x & Hin & Hx).
  apply Ascii.eqb_eq in Hx. subst x.
  now apply until_nul_not_in in Hin.
Qed.

Lemma is_delim_not_NUL (c : ascii) :
  is_delim' c = true -> Ascii.eqb c NUL = false.
Proof.
  intros H. destruct (Ascii.eqb c NUL) eqn:E; [|reflexivity].
  apply Ascii.eqb_eq in E. subst c. rewrite is_delim_NUL in H.
  discriminate.
Qed.

Lemma split_runs_word (cur w s : list ascii) :
  delim_free delims w = true ->
  split_runs' cur (w ++ s) = split_runs' (cur ++ w) s.
Proof.
  revert cur. induction w as [|c w IH]; intros cur H; simpl.
  - now rewrite app_nil_r.
  - simpl in H. apply andb_prop in H as [Hc Hw].
    apply negb_true_iff in Hc. rewrite Hc.
    rewrite IH by assumption. now rewrite <- app_assoc.
Qed.

Lemma split_runs_delim (cur s : list ascii) (d : ascii) :
  is_delim' d = true ->
  split_runs' cur (d :: s) = emit cur ++ words' s.
Proof. intros H. simpl. now rewrite H. Qed.

Lemma words_delims (ds s : list ascii) :
  all_delims delims ds = true -> words' (ds ++ s) = words' s.
Proof.
  induction ds as [|d ds IH]; simpl; [reflexivity|].
  intros [Hd Hds]%andb_prop. unfold words. simpl.
  rewrite Hd. simpl. now apply IH.
Qed.

Lemma words_only_delims (ds : list ascii) :
  all_delims delims ds = true -> words' ds = [].
Proof.
  intros H. rewrite <- (app_nil_r ds). now rewrite words_delims.
Qed.

Lemma emit_token (w : list ascii) : is_token delims w = true -> emit w = [w].
Proof. destruct w; [discriminate|reflexivity]. Qed.

Lemma is_token_delim_free (w : list ascii) :
  is_token delims w = true -> delim_free delims w = true.
Proof.
  destruct w; [discriminate|]. unfold is_token.
  now intros [_ H]%andb_prop.
Qed.

Lemma is_token_nul_free (w : list ascii) :
  is_token delims w = true -> nul_free w = true.
Proof.
  destruct w; [discriminate|]. unfold is_token.
  now intros [H _]%andb_prop.
Qed.

Lemma words_token_end (w : list ascii) :
  is_token delims w = true -> words' w = [w].
Proof.
  intros H. unfold words.
  rewrite <- (app_nil_r w) at 1.
  rewrite split_runs_word by now apply is_token_delim_free.
  simpl. now apply emit_token.
Qed.

Lemma words_token_delim (w s : list ascii) (d : ascii) :
  is_token delims w = true -> is_delim' d = true ->
  words' (w ++ d :: s) = w :: words' s.
Proof.
  intros Hw Hd. unfold words at 1.
  rewrite split_runs_word by now apply is_token_delim_free.
  rewrite split_runs_delim by assumption. simpl.
  now rewrite emit_token.
Qed.

End TokenizerFacts.

(** ** [strspn], [strcspn] and [strtok] *)

Section StrtokFacts.

Variable delims : list ascii.

Local Abbreviation is_delim' := (is_delim delims).
Local Abbreviation words' := (words delims).
Local Abbreviation split_runs' := (split_runs delims).
Local Abbreviation strspn' := (strspn delims).
Local Abbreviation strcspn' := (strcspn delims).

(** Skipping the leading delimiters loses no word. *)
Lemma words_skip_delims (s : list ascii) :
  words' (until_nul s) = words' (until_nul (drop (strspn' s) s)).
Proof.
  induction s as [|c s IH]; simpl; [reflexivity|].
  destruct (is_delim' c) eqn:E; simpl; [|reflexivity].
  rewrite (is_delim_not_NUL _ _ E). unfold words. simpl.
  rewrite E. exact IH.
Qed.

(** [strspn] stops in front of a character that is no delimiter. *)
Lemma strspn_stop (s : list ascii) :
  is_delim' (char_at s (strspn' s)) = false.
Proof.
  induction s as [|c s IH]; simpl.
  - apply is_delim_NUL.
  - destruct (is_delim' c) eqn:E; [exact IH|exact E].
Qed.

(** [strcspn] stops at the terminator or at a delimiter. *)
Lemma strcspn_stop (s : list ascii) :
  Ascii.eqb (char_at s (strcspn' s)) NUL = false ->
  is_delim' (char_at s (strcspn' s)) = true.
Proof.
  induction s as [|c s IH]; simpl.
  - discriminate.
  - destruct (Ascii.eqb c NUL) eqn:E; simpl.
    + unfold char_at. simpl. now rewrite E.
    + destruct (is_delim' c) eqn:D; [intros _; exact D|exact IH].
Qed.

(** The characters [strcspn] runs over form a token, provided the run
    starts at a character that is neither terminator nor delimiter. *)
Lemma strcspn_token (s : list ascii) :
  Ascii.eqb (char_at s 0) NUL = false ->
  is_delim' (char_at s 0) = false ->
  is_token delims (take (strcspn' s) s) = true.
Proof.
  destruct s as [|c s]; [discriminate|].
  unfold char_at. simpl. intros E D. rewrite E, D. simpl.
  rewrite E, D. simpl. clear c E D.
  induction s as [|c s IH]; simpl; [reflexivity|].
  destruct (Ascii.eqb c NUL) eqn:E; simpl; [reflexivity|].
  destruct (is_delim' c) eqn:D; simpl; [reflexivity|].
  rewrite E, D. simpl. apply andb_prop in IH as [-> ->]. reflexivity.
Qed.

(** A token that runs up to the terminator. *)
Lemma token_read_nul (s : list ascii) :
  Ascii.eqb (char_at s (strcspn' s)) NUL = true ->
  until_nul s = take (strcspn' s) s /\
  until_nul (drop (strcspn' s) s) = [].
Proof.
  induction s as [|c s IH]; simpl; [auto|].
  destruct (Ascii.eqb c NUL) eqn:E; simpl.
  - rewrite E. auto.
  - destruct (is_delim' c) eqn:D; simpl.
    + unfold char_at. simpl. rewrite E. discriminate.
    + intros H. destruct (IH H) as [-> ->]. auto.
Qed.

(** A token that ends at a delimiter, which [strtok] overwrites. *)
Lemma token_read_delim (s : list ascii) :
  Ascii.eqb (char_at s (strcspn' s)) NUL = false ->
  until_nul (<[strcspn' s := NUL]> s) = take (strcspn' s) s /\
  until_nul (drop (strcspn' s) s)
  = char_at s (strcspn' s) :: until_nul (drop (S (strcspn' s)) s).
Proof.
  induction s as [|c s IH]; simpl; [discriminate|].
  destruct (Ascii.eqb c NUL) eqn:E; simpl.
  - unfold char_at. simpl. rewrite E. discriminate.
  - destruct (is_delim' c) eqn:D; simpl.
    + rewrite E. auto.
    + intros H. rewrite E. destruct (IH H) as [-> ->]. auto.
Qed.

Lemma split_runs_strcspn (cur s : list ascii) :
  split_runs' cur (until_nul s)
  = split_runs' (cur ++ take (strcspn' s) s)
      (until_nul (drop (strcspn' s) s)).
Proof.
  revert cur. induction s as [|c s IH]; intros cur.
  - simpl. now rewrite app_nil_r.
  - cbn [strcspn].
    destruct (Ascii.eqb c NUL || is_delim' c) eqn:F.
    + rewrite take_0, drop_0, app_nil_r. reflexivity.
    + apply orb_false_elim in F as [E D].
      cbn [until_nul take drop]. rewrite E. cbn [split_runs].
      rewrite D, IH. now rewrite <- app_assoc.
Qed.

Lemma until_nul_at_nul (s : list ascii) :
  Ascii.eqb (char_at s 0) NUL = true -> until_nul s = [].
Proof.
  destruct s as [|c s]; [reflexivity|].
  unfold char_at. simpl. now intros ->.
Qed.

Lemma drop_insert_add (l : list ascii) (b j : nat) (x : ascii) :
  drop b (<[b + j := x]> l) = <[j := x]> (drop b l).
Proof.
  rewrite drop_insert_ge by lia. f_equal. lia.
Qed.

(** What one call of [strtok] does: the saved position moves forward,
    strings that end in front of the starting position are left alone,
    and the result is the first word of the string at the starting
    position, the rest being the words of the string at the new saved
    position. *)
Lemma strtok_spec (s : option nat) (m m' : strtok_mem)
    (tok : option nat) :
  strtok delims s m = (tok, m') ->
  let s0 := match s with Some p => p | None => save_ptr m end in
  s0 <= save_ptr m' /\
  (forall q i, q <= i <= s0 -> char_at (buf m) i = NUL ->
     c_str (buf m') q = c_str (buf m) q /\ char_at (buf m') i = NUL) /\
  match tok with
  | None => words' (c_str (buf m) s0) = []
  | Some b =>
      words' (c_str (buf m) s0)
      = c_str (buf m') b :: words' (c_str (buf m') (save_ptr m')) /\
      is_token delims (c_str (buf m') b) = true /\
      exists i, b <= i <= save_ptr m' /\ char_at (buf m') i = NUL
  end.
Proof.
  intros H s0. unfold strtok in H.
  change (match s with Some p => p | None => save_ptr m end) with s0 in H.
  set (k := strspn' (drop s0 (buf m))) in *.
  set (b := s0 + k) in *.
  assert (Hskip : words' (c_str (buf m) s0) = words' (c_str (buf m) b)).
  { unfold c_str, b. rewrite <- drop_drop. apply words_skip_delims. }
  assert (Hnd : is_delim' (char_at (buf m) b) = false).
  { unfold b. rewrite <- char_at_drop. apply strspn_stop. }
  destruct (Ascii.eqb (char_at (buf m) b) NUL) eqn:Eb.
  { (* no token left *)
    injection H as <- <-. simpl. split; [lia|]. split; [auto|].
    rewrite Hskip. unfold c_str. rewrite until_nul_at_nul; [reflexivity|].
    now rewrite char_at_drop, Nat.add_0_r. }
  set (s' := drop b (buf m)) in *.
  set (j := strcspn' s') in *.
  assert (Hs'j : char_at (buf m) (b + j) = char_at s' j).
  { unfold s'. now rewrite char_at_drop. }
  assert (Htok : is_token delims (take j s') = true).
  { apply strcspn_token; unfold s';
      now rewrite char_at_drop, Nat.add_0_r. }
  assert (Hw : words' (c_str (buf m) b)
               = split_runs' (take j s') (until_nul (drop j s'))).
  { unfold c_str. fold s'. unfold words.
    now rewrite split_runs_strcspn. }
  rewrite Hs'j in H.
  destruct (Ascii.eqb (char_at s' j) NUL) eqn:Ee.
  - (* the token runs up to the terminator *)
    injection H as <- <-. simpl. split; [lia|]. split; [auto|].
    destruct (token_read_nul s' Ee) as [Hr Hrest]. fold j in Hr, Hrest.
    rewrite Hskip, Hw, Hrest. simpl.
    assert (Hcb : c_str (buf m) b = take j s') by exact Hr.
    assert (Hce : c_str (buf m) (b + j) = []).
    { unfold c_str. rewrite <- drop_drop. exact Hrest. }
    rewrite Hcb, Hce. repeat split.
    + now rewrite (emit_token delims) by exact Htok.
    + exact Htok.
    + exists (b + j). split; [lia|]. rewrite Hs'j.
      now apply Ascii.eqb_eq.
  - (* the token ends at a delimiter, which becomes a terminator *)
    injection H as <- <-. simpl. split; [lia|].
    destruct (token_read_delim s' Ee) as [Hr Hrest]. fold j in Hr, Hrest.
    pose proof (strcspn_stop s' Ee) as Hd. fold j in Hd.
    assert (Hlt : b + j < length (buf m)).
    { apply lookup_lt_is_Some. unfold char_at in Hs'j, Ee.
      destruct (buf m !! (b + j)) eqn:L; [eauto|].
      simpl in Hs'j. rewrite <- Hs'j in Ee. discriminate. }
    split.
    { intros q i Hqi Hi.
      assert (i <> b + j).
      { intros ->. rewrite Hs'j in Hi. rewrite Hi in Ee. discriminate. }
      split.
      - apply (c_str_insert_after _ q i); [lia|exact Hi].
      - rewrite char_at_insert_ne by lia. exact Hi. }
    assert (Hcb : c_str (<[b + j := NUL]> (buf m)) b = take j s').
    { unfold c_str. rewrite drop_insert_add. exact Hr. }
    assert (Hce : c_str (<[b + j := NUL]> (buf m)) (S (b + j))
                  = until_nul (drop (S j) s')).
    { unfold c_str. rewrite drop_insert_lt by lia.
      unfold s'. rewrite drop_drop. do 2 f_equal. lia. }
    rewrite Hcb, Hce, Hskip, Hw, Hrest. repeat split.
    + rewrite split_runs_delim by exact Hd.
      now rewrite (emit_token delims) by exact Htok.
    + exact Htok.
    + exists (b + j). split; [lia|]. unfold char_at.
      now rewrite list_lookup_insert_eq.
Qed.

End StrtokFacts.

(** ** [tokenize] *)

Section TokenizeFacts.

Variable delims : list ascii.

(** The loop never touches a string that ends in front of the saved
    position. *)
Lemma tokenize_loop_preserves (room : nat) :
  forall (token : option nat) (m m' : strtok_mem) (argv : list nat)
         (q i : nat),
    tokenize_loop delims room token m = (argv, m') ->
    q <= i <= save_ptr m -> char_at (buf m) i = NUL ->
    c_str (buf m') q = c_str (buf m) q.
Proof.
  induction room as [|room IH]; intros token m m' argv q i H Hqi Hi.
  - destruct token; injection H as <- <-; reflexivity.
  - destruct token as [t|]; [|injection H as <- <-; reflexivity].
    simpl in H.
    destruct (strtok delims None m) as [token1 m1] eqn:E1.
    destruct (tokenize_loop delims room token1 m1) as [argv1 m2] eqn:E2.
    injection H as <- <-.
    destruct (strtok_spec _ _ _ _ _ E1) as (Hle & Hkeep & _).
    simpl in Hle, Hkeep.
    destruct (Hkeep q i Hqi Hi) as [Hq Hi1].
    rewrite <- Hq. apply (IH _ _ _ _ q i E2); [lia|exact Hi1].
Qed.

(** The loop fills [argv] with the token in hand and the words that
    follow the saved position, as far as there is room. *)
Lemma tokenize_loop_spec (room : nat) :
  forall (token : option nat) (m m' : strtok_mem) (argv : list nat),
    tokenize_loop delims room token m = (argv, m') ->
    (forall t, token = Some t ->
       exists i, t <= i <= save_ptr m /\ char_at (buf m) i = NUL) ->
    map (c_str (buf m')) argv
    = take room
        match token with
        | Some t =>
            c_str (buf m) t
            :: words delims (c_str (buf m) (save_ptr m))
        | None => []
        end.
Proof.
  induction room as [|room IH]; intros token m m' argv H Hinv.
  - destruct token; injection H as <- <-; reflexivity.
  - destruct token as [t|]; [|injection H as <- <-; reflexivity].
    simpl in H.
    destruct (strtok delims None m) as [token1 m1] eqn:E1.
    destruct (tokenize_loop delims room token1 m1) as [argv1 m2] eqn:E2.
    injection H as <- <-.
    destruct (Hinv t eq_refl) as (i & Hti & Hi).
    destruct (strtok_spec _ _ _ _ _ E1) as (Hle & Hkeep & Htok).
    simpl in Hle, Hkeep, Htok.
    destruct (Hkeep t i Hti Hi) as [Ht Hi1].
    simpl. f_equal.
    + rewrite <- Ht.
      apply (tokenize_loop_preserves _ _ _ _ _ t i E2); [lia|exact Hi1].
    + rewrite (IH _ _ _ _ E2).
      * destruct token1 as [b|]; [|now rewrite Htok].
        destruct Htok as (-> & _ & _). reflexivity.
      * intros b ->. now destruct Htok as (_ & _ & Hex).
Qed.

(** The strings in [argv] are the first [argvSize] words of the line. *)
Lemma tokens_words (line : list ascii) (argvSize : nat) :
  tokens delims line argvSize
  = take argvSize (words delims (until_nul line)).
Proof.
  unfold tokens, tokenize.
  destruct (strtok delims (Some 0) (StrtokMem line 0))
    as [token m] eqn:E1.
  destruct (tokenize_loop delims argvSize token m) as [argv m'] eqn:E2.
  destruct (strtok_spec _ _ _ _ _ E1) as (_ & _ & Htok).
  cbn [buf save_ptr] in Htok.
  change (c_str line 0) with (until_nul line) in Htok.
  rewrite (tokenize_loop_spec _ _ _ _ _ E2).
  - destruct token as [b|]; [|now rewrite Htok].
    destruct Htok as (-> & _ & _). reflexivity.
  - intros b ->. now destruct Htok as (_ & _ & Hex).
Qed.

(** [argc] counts the strings of [argv]. *)
Lemma tokenize_argc (line : list ascii) (argvSize : nat) :
  fst (fst (tokenize delims line argvSize))
  = length (tokens delims line argvSize).
Proof.
  unfold tokens, tokenize.
  destruct (strtok delims (Some 0) (StrtokMem line 0)) as [token m].
  destruct (tokenize_loop delims argvSize token m) as [argv m'].
  simpl. now rewrite length_map.
Qed.

Lemma tokenize_tokens (line : list ascii) (argvSize : nat) :
  exists argv line',
    tokenize delims line argvSize
    = (length (tokens delims line argvSize), argv, line') /\
    map (c_str line') argv = tokens delims line argvSize.
Proof.
  pose proof (tokenize_argc line argvSize) as H. unfold tokens in *.
  destruct (tokenize delims line argvSize) as [[argc argv] line'].
  simpl in H. subst argc. eauto.
Qed.

(** Every run that [split_runs] emits is a token. *)
Lemma split_runs_tokens (s : list ascii) :
  forall cur,
    nul_free cur = true -> delim_free delims cur = true ->
    nul_free s = true ->
    Forall (fun w => is_token delims w = true) (split_runs delims cur s).
Proof.
  assert (Hemit : forall cur, nul_free cur = true ->
            delim_free delims cur = true ->
            Forall (fun w => is_token delims w = true) (emit cur)).
  { intros [|c cur] Hn Hd; constructor; [|constructor].
    unfold is_token. now rewrite Hn, Hd. }
  induction s as [|c s IH]; intros cur Hn Hd Hs; simpl.
  - now apply Hemit.
  - simpl in Hs. apply andb_prop in Hs as [Hc Hs].
    destruct (is_delim delims c) eqn:D.
    + apply Forall_app. split; [now apply Hemit|now apply IH].
    + apply IH; [| |exact Hs].
      * unfold nul_free. rewrite forallb_app. fold (nul_free cur).
        rewrite Hn. simpl. now rewrite Hc.
      * unfold delim_free. rewrite forallb_app.
        fold (delim_free delims cur). rewrite Hd. simpl. now rewrite D.
Qed.

Lemma words_tokens (s : list ascii) :
  Forall (fun w => is_token delims w = true)
    (words delims (until_nul s)).
Proof.
  apply split_runs_tokens; try reflexivity. apply nul_free_until_nul.
Qed.

End TokenizeFacts.


(** [strtok] works in place: the delimiter behind a token becomes its
    terminator, and [argv] holds offsets into the line. *)
Example tokenize_in_place :
  tokenize DELIMS (chars "a  b" ++ TAB :: chars "c") ARGV_SIZE
  = (3, [0; 3; 5],
     ["a"%char; NUL; " "%char; "b"%char; NUL; "c"%char]).
Proof. reflexivity. Qed.

(** After the tenth token [strtok] is called once more, and ends the
    eleventh token too; [argc] stops at ten. *)
Example tokenize_twelve :
  tokenize DELIMS (chars "1 2 3 4 5 6 7 8 9 10 11 12") ARGV_SIZE
  = (10, [0; 2; 4; 6; 8; 10; 12; 14; 16; 18],
     chars "1" ++ NUL :: chars "2" ++ NUL :: chars "3" ++ NUL
     :: chars "4" ++ NUL :: chars "5" ++ NUL :: chars "6" ++ NUL
     :: chars "7" ++ NUL :: chars "8" ++ NUL :: chars "9" ++ NUL
     :: chars "10" ++ NUL :: chars "11" ++ NUL :: chars "12").
Proof. reflexivity. Qed.

(** A string behind the terminator of the line is not read. *)
Example tokens_stop_at_terminator :
  tokens DELIMS (chars "ab" ++ NUL :: chars " cd") ARGV_SIZE = [chars "ab"].
Proof. reflexivity. Qed.

(** ** The dispatch table and [help] *)

Section DispatcherFacts.

Variable CommandHandler : Type.
Variable table : list (DispatchRecord CommandHandler).

Lemma strcmp_eq_true (a b : list ascii) : strcmp_eq a b = true <-> a = b.
Proof. unfold strcmp_eq. apply bool_decide_eq_true. Qed.

Lemma strcmp_eq_false (a b : list ascii) : strcmp_eq a b = false <-> a <> b.
Proof. unfold strcmp_eq. apply bool_decide_eq_false. Qed.

(** [runCommand] in terms of the strings of [argv]. *)
Lemma runCommand_tokens (line : list ascii) :
  runCommand table line
  = match tokens DELIMS line ARGV_SIZE with
    | [] => []
    | cmd :: args =>
        if strcmp_eq cmd (chars "help") then
          helpCommandHandler table (S (length args)) (cmd :: args)
        else dispatch_scan table cmd (S (length args)) (cmd :: args)
    end.
Proof.
  unfold runCommand.
  destruct (tokenize_tokens DELIMS line ARGV_SIZE)
    as (argv & line' & -> & Hargv).
  rewrite Hargv. now destruct (tokens DELIMS line ARGV_SIZE).
Qed.

(** The scan of [runCommand] calls the first record with the name. *)
Lemma dispatch_scan_first (records : list (DispatchRecord CommandHandler)) :
  forall (i : nat) (e : DispatchRecord CommandHandler) argc argv,
    records !! i = Some e -> first_named records i (name e) ->
    dispatch_scan records (name e) argc argv
    = [Handler_call (handler e) argc argv].
Proof.
  induction records as [|r records IH]; intros i e argc argv Hi Hfirst;
    [discriminate|].
  simpl. destruct i as [|i].
  - injection Hi as ->.
    now rewrite (proj2 (strcmp_eq_true _ _) eq_refl).
  - rewrite (proj2 (strcmp_eq_false _ _)).
    + apply (IH i); [exact Hi|].
      intros j e' Hj He'. apply (Hfirst (S j) e'); [lia|exact He'].
    + apply (Hfirst 0 r); [lia|reflexivity].
Qed.

Lemma dispatch_scan_unknown (records : list (DispatchRecord CommandHandler))
    (cmd : list ascii) argc argv :
  Forall (fun r => name r <> cmd) records ->
  dispatch_scan records cmd argc argv = unknown_command cmd.
Proof.
  induction 1 as [|r records Hr _ IH]; simpl; [reflexivity|].
  now rewrite (proj2 (strcmp_eq_false _ _) Hr).
Qed.

(** The scan of [helpCommandHandler] prints the first record with the
    name. *)
Lemma help_scan_first (records : list (DispatchRecord CommandHandler)) :
  forall (i : nat) (e : DispatchRecord CommandHandler),
    records !! i = Some e -> first_named records i (name e) ->
    help_scan records (name e)
    = [Serial_print (chars "Usage: "); Serial_print (name e);
       Serial_print [" "%char]; Serial_println (helpString e)].
Proof.
  induction records as [|r records IH]; intros i e Hi Hfirst;
    [discriminate|].
  simpl. destruct i as [|i].
  - injection Hi as ->.
    now rewrite (proj2 (strcmp_eq_true _ _) eq_refl).
  - rewrite (proj2 (strcmp_eq_false _ _)).
    + apply (IH i); [exact Hi|].
      intros j e' Hj He'. apply (Hfirst (S j) e'); [lia|exact He'].
    + apply (Hfirst 0 r); [lia|reflexivity].
Qed.

Lemma help_scan_unknown (records : list (DispatchRecord CommandHandler))
    (cmd : list ascii) :
  Forall (fun r => name r <> cmd) records ->
  help_scan records cmd = unknown_command cmd.
Proof.
  induction 1 as [|r records Hr _ IH]; simpl; [reflexivity|].
  now rewrite (proj2 (strcmp_eq_false _ _) Hr).
Qed.

Lemma handler_calls_app (evs1 evs2 : list (event CommandHandler)) :
  handler_calls (evs1 ++ evs2) = handler_calls evs1 ++ handler_calls evs2.
Proof.
  induction evs1 as [|[s|s|h argc argv] evs1 IH]; simpl;
    [reflexivity|exact IH|exact IH|now rewrite IH].
Qed.

Lemma serial_text_app (evs1 evs2 : list (event CommandHandler)) :
  serial_text (evs1 ++ evs2) = serial_text evs1 ++ serial_text evs2.
Proof.
  induction evs1 as [|[s|s|h argc argv] evs1 IH]; simpl;
    [reflexivity| | |exact IH]; rewrite IH; now rewrite <- ?app_assoc.
Qed.

(** The built-in [help] calls no handler. *)
Lemma help_scan_no_call (records : list (DispatchRecord CommandHandler))
    (cmd : list ascii) :
  handler_calls (help_scan records cmd) = [].
Proof.
  induction records as [|r records IH]; simpl; [reflexivity|].
  now destruct (strcmp_eq (name r) cmd).
Qed.

Lemma help_banner_no_call : handler_calls (help_banner table) = [].
Proof.
  unfold help_banner. rewrite !handler_calls_app. simpl.
  rewrite app_nil_r. induction table as [|r t IH]; simpl; auto.
Qed.

Lemma helpCommandHandler_no_call argc argv :
  handler_calls (helpCommandHandler table argc argv) = [].
Proof.
  unfold helpCommandHandler. destruct (argc =? 2).
  - destruct (strcmp_eq _ _); [reflexivity|apply help_scan_no_call].
  - apply help_banner_no_call.
Qed.

Lemma help_banner_text :
  serial_text (help_banner table)
  = chars "Usage: help [command]" ++ CRLF ++ chars "Commands: help "
    ++ flat_map (fun record => name record ++ [" "%char]) table ++ CRLF.
Proof.
  unfold help_banner. cbn [app serial_text]. do 3 f_equal.
  induction table as [|r t IH]; [reflexivity|].
  cbn [flat_map app serial_text]. rewrite IH, <- !app_assoc. reflexivity.
Qed.

End DispatcherFacts.

(** ** Lines laid out from tokens *)

Section LayoutFacts.

Variable delims : list ascii.

Lemma all_delims_nul_free (ds : list ascii) :
  all_delims delims ds = true -> nul_free ds = true.
Proof.
  induction ds as [|d ds IH]; simpl; [reflexivity|].
  intros [Hd Hds]%andb_prop.
  rewrite (is_delim_not_NUL _ _ Hd). simpl. now apply IH.
Qed.

Lemma nul_free_app (l1 l2 : list ascii) :
  nul_free l1 = true -> nul_free l2 = true -> nul_free (l1 ++ l2) = true.
Proof.
  intros H1 H2. unfold nul_free in *. now rewrite forallb_app, H1, H2.
Qed.

Lemma well_separated_cons (w sep : list ascii)
    (ws : list (list ascii * list ascii)) :
  well_separated delims ((w, sep) :: ws) = true ->
  is_token delims w = true /\ all_delims delims sep = true /\
  (sep = [] -> ws = []) /\ well_separated delims ws = true.
Proof.
  simpl. intros [[[Hw Hsep]%andb_prop Hlast]%andb_prop Hws]%andb_prop.
  repeat split; try assumption.
  intros ->. destruct ws; [reflexivity|discriminate].
Qed.

Lemma layout_nul_free (ws : list (list ascii * list ascii)) :
  well_separated delims ws = true -> nul_free (layout ws) = true.
Proof.
  induction ws as [|[w sep] ws IH]; [reflexivity|].
  intros (Hw & Hsep & _ & Hws)%well_separated_cons. simpl.
  apply nul_free_app; [now apply (is_token_nul_free delims)|].
  apply nul_free_app; [now apply all_delims_nul_free|now apply IH].
Qed.

(** The words of a proper layout are the tokens it was laid out from. *)
Lemma words_layout (ws : list (list ascii * list ascii)) :
  well_separated delims ws = true ->
  words delims (layout ws) = map fst ws.
Proof.
  induction ws as [|[w sep] ws IH]; [reflexivity|].
  intros (Hw & Hsep & Hlast & Hws)%well_separated_cons. simpl.
  destruct sep as [|d sep].
  - rewrite (Hlast eq_refl). simpl. rewrite app_nil_r.
    now apply words_token_end.
  - simpl in Hsep. apply andb_prop in Hsep as [Hd Hsep]. simpl.
    rewrite words_token_delim by assumption.
    rewrite words_delims by assumption. now rewrite IH.
Qed.

Lemma tokens_layout (lead : list ascii)
    (ws : list (list ascii * list ascii)) (argvSize : nat) :
  all_delims delims lead = true -> well_separated delims ws = true ->
  tokens delims (lead ++ layout ws) argvSize
  = take argvSize (map fst ws).
Proof.
  intros Hlead Hws. rewrite tokens_words. f_equal.
  rewrite until_nul_nul_free.
  - rewrite words_delims by assumption. now apply words_layout.
  - apply nul_free_app;
      [now apply all_delims_nul_free|now apply layout_nul_free].
Qed.

(** Every string without terminator is a proper layout. *)
Lemma layout_exists (s : list ascii) :
  nul_free s = true ->
  exists lead ws,
    all_delims delims lead = true /\ well_separated delims ws = true /\
    s = lead ++ layout ws.
Proof.
  induction s as [|c s IH]; [now exists [], []|].
  simpl. intros [Hc Hs]%andb_prop.
  destruct (IH Hs) as (lead & ws & Hlead & Hws & ->).
  destruct (is_delim delims c) eqn:D.
  { exists (c :: lead), ws. simpl. now rewrite D, Hlead, Hws. }
  assert (Hone : is_token delims [c] = true).
  { simpl. now rewrite Hc, D. }
  destruct lead as [|d lead].
  - destruct ws as [|[w sep] ws].
    + exists [], [([c], [])].
      split; [reflexivity|]. split; [|reflexivity].
      cbn [well_separated]. now rewrite Hone.
    + exists [], ((c :: w, sep) :: ws).
      apply well_separated_cons in Hws as (Hw & Hsep & Hlast & Hws).
      split; [reflexivity|]. split; [|reflexivity].
      cbn [well_separated]. rewrite Hsep, Hws.
      assert (Hcw : is_token delims (c :: w) = true).
      { cbn [is_token nul_free delim_free forallb]. rewrite Hc, D.
        destruct w; [discriminate|exact Hw]. }
      rewrite Hcw. destruct ws, sep; try reflexivity.
      now specialize (Hlast eq_refl).
  - exists [], (([c], d :: lead) :: ws).
    split; [reflexivity|]. split; [|reflexivity].
    cbn [well_separated]. rewrite Hone, Hlead, Hws. now destruct ws.
Qed.

Lemma tokens_only_delims (line : list ascii) (argvSize : nat) :
  all_delims delims line = true ->
  fst (fst (tokenize delims line argvSize)) = 0.
Proof.
  intros H. rewrite tokenize_argc, tokens_words.
  rewrite until_nul_nul_free by now apply all_delims_nul_free.
  rewrite words_only_delims by assumption. now destruct argvSize.
Qed.

End LayoutFacts.

(** ** The coroutine *)

Section CoroutineFacts.

Variable CommandHandler : Type.
Variable table : list (DispatchRecord CommandHandler).

(** The events of a run are those of the calls it makes. *)
Lemma run_perform (rs : list poll) :
  forall st,
    run table st rs
    = (fst (run_calls st rs),
       flat_map (perform table) (snd (run_calls st rs))).
Proof.
  induction rs as [|r rs IH]; intros st; [reflexivity|].
  simpl. unfold runRoutine.
  destruct (runRoutine_calls st r) as [st1 cs1].
  rewrite (IH st1). destruct (run_calls st1 rs) as [st2 cs2]. simpl.
  now rewrite flat_map_app.
Qed.

Lemma run_app (rs1 rs2 : list poll) :
  forall st,
    run table st (rs1 ++ rs2)
    = (fst (run table (fst (run table st rs1)) rs2),
       snd (run table st rs1)
       ++ snd (run table (fst (run table st rs1)) rs2)).
Proof.
  induction rs1 as [|r rs1 IH]; intros st; simpl.
  - now destruct (run table st rs2).
  - destruct (runRoutine table st r) as [st1 evs1].
    rewrite (IH st1). destruct (run table st1 rs1) as [st2 evs2]. simpl.
    destruct (run table st2 rs2) as [st3 evs3]. simpl.
    now rewrite app_assoc.
Qed.

(** A [getLine] that has no line yet changes nothing. *)
Lemma run_not_ready (rs1 rs2 : list poll) (st : state) :
  run table st (rs1 ++ None :: rs2) = run table st (rs1 ++ rs2).
Proof.
  rewrite !run_app. simpl.
  now destruct (run table (fst (run table st rs1)) rs2).
Qed.

(** Any line that is no overflow brings the coroutine back to the top of
    its loop. *)
Lemma runRoutine_success_state (st : state) (line : list ascii) :
  fst (runRoutine table st (poll_of (Success line))) = AWAIT_LINE.
Proof. now destruct st. Qed.

(** The flush loop: one diagnostic per fragment, the last one included,
    and back to the top of the loop. *)
Lemma run_recover (frags : list (list ascii)) (t : list ascii) :
  run table RECOVER_OVERFLOW (map poll_of (map Overflow frags ++ [Success t]))
  = (AWAIT_LINE,
     flat_map (fun l => printLineError l STATUS_FLUSH_TO_EOL)
       (frags ++ [t])).
Proof.
  induction frags as [|f frags IH]; [reflexivity|].
  change (run table RECOVER_OVERFLOW
            (map poll_of (map Overflow (f :: frags) ++ [Success t])))
    with (let '(st2, evs2) :=
            run table RECOVER_OVERFLOW
              (map poll_of (map Overflow frags ++ [Success t])) in
          (st2, printLineError f STATUS_FLUSH_TO_EOL ++ evs2)).
  rewrite IH. reflexivity.
Qed.

Lemma run_calls_status (rs : list poll) :
  forall (st : state) (line : list ascii) (statusCode : N),
    In (Call_printLineError line statusCode) (snd (run_calls st rs)) ->
    statusCode = STATUS_BUFFER_OVERFLOW \/ statusCode = STATUS_FLUSH_TO_EOL.
Proof.
  induction rs as [|r rs IH]; intros st line statusCode; [intros []|].
  simpl. destruct (runRoutine_calls st r) as [st1 cs1] eqn:E1.
  destruct (run_calls st1 rs) as [st2 cs2] eqn:E2. simpl.
  intros [Hin|Hin]%in_app_or.
  - destruct r as [[isError l]|]; simpl in E1.
    + destruct st, isError; injection E1 as <- <-;
        destruct Hin as [Hin|[]]; try discriminate;
        injection Hin as <- <-; auto.
    + injection E1 as <- <-. destruct Hin.
  - apply (IH st1 line). now rewrite E2.
Qed.

Lemma runCommand_same_tokens (line1 line2 : list ascii) :
  tokens DELIMS line1 ARGV_SIZE = tokens DELIMS line2 ARGV_SIZE ->
  runCommand table line1 = runCommand table line2.
Proof. intros H. now rewrite !runCommand_tokens, H. Qed.

End CoroutineFacts.

(** * The claims *)

(** ** The coroutine and its overflow recovery *)

(** C1, as the specification states it, fails: fed
    [Overflow "abc"; Overflow "def"; Success "ghi"], the coroutine prints
    three diagnostics, not two. The flush loop reports every line it
    fetches, also the one that ends the oversized line, so "ghi" gets a
    FlushToEOL diagnostic of its own. *)
Lemma C1_counterexample_three_diagnostics :
  serial_text
    (snd (feed (CommandHandler := nat) [] AWAIT_LINE
            [Overflow (chars "abc"); Overflow (chars "def");
             Success (chars "ghi")]))
  = chars "BufferOverflow: abc" ++ CRLF
    ++ chars "FlushToEOL: def" ++ CRLF
    ++ chars "FlushToEOL: ghi" ++ CRLF
  /\ snd (feed (CommandHandler := nat) [] AWAIT_LINE
            [Overflow (chars "abc"); Overflow (chars "def");
             Success (chars "ghi")])
     <> printLineError (chars "abc") STATUS_BUFFER_OVERFLOW
        ++ printLineError (chars "def") STATUS_FLUSH_TO_EOL.
Proof. split; [reflexivity|discriminate]. Qed.

(** C1 (amended): from its initial state, fed
    [Overflow "abc"; Overflow "def"; Success "ghi"], the coroutine prints
    exactly three diagnostics - BufferOverflow for "abc", FlushToEOL for
    "def" and FlushToEOL for "ghi" - calls no handler, so that "ghi" is
    not dispatched, and is back at the top of its loop; the next
    [Success] outcome is then run as a fresh command line. *)
Theorem C1_overflow_recovery (CommandHandler : Type)
    (table : list (DispatchRecord CommandHandler)) (next : list ascii) :
  let oversized :=
    [Overflow (chars "abc"); Overflow (chars "def"); Success (chars "ghi")] in
  let diagnostics : list (event CommandHandler) :=
    [Serial_print (chars "BufferOverflow: "); Serial_println (chars "abc");
     Serial_print (chars "FlushToEOL: "); Serial_println (chars "def");
     Serial_print (chars "FlushToEOL: "); Serial_println (chars "ghi")] in
  feed table AWAIT_LINE oversized = (AWAIT_LINE, diagnostics)
  /\ serial_text diagnostics
     = chars "BufferOverflow: abc" ++ CRLF
       ++ chars "FlushToEOL: def" ++ CRLF
       ++ chars "FlushToEOL: ghi" ++ CRLF
  /\ handler_calls diagnostics = []
  /\ feed table AWAIT_LINE (oversized ++ [Success next])
     = (AWAIT_LINE, diagnostics ++ runCommand table next).
Proof.
  intros oversized diagnostics. repeat split.
  unfold feed. rewrite map_app, run_app.
  change (run table AWAIT_LINE (map poll_of oversized))
    with (AWAIT_LINE, diagnostics).
  cbn [fst snd map run]. unfold runRoutine.
  cbn [runRoutine_calls poll_of flat_map perform fst snd].
  now rewrite !app_nil_r.
Qed.

(** C9: every call of [printLineError] that the coroutine makes, on any
    sequence of [getLine] results and from either await point, passes
    [STATUS_BUFFER_OVERFLOW] or [STATUS_FLUSH_TO_EOL], so the call never
    takes the branch that prints "UnknownError"; and the events of a run
    are exactly those of the calls it makes. *)
Theorem C9_printLineError_status (st : state) (rs : list poll)
    (line : list ascii) (statusCode : N) :
  In (Call_printLineError line statusCode) (snd (run_calls st rs)) ->
  (statusCode = STATUS_BUFFER_OVERFLOW \/ statusCode = STATUS_FLUSH_TO_EOL)
  /\ printLineError_branch statusCode <> UnknownError_branch
  /\ forall (CommandHandler : Type)
       (table : list (DispatchRecord CommandHandler)),
       run table st rs
       = (fst (run_calls st rs),
          flat_map (perform table) (snd (run_calls st rs))).
Proof.
  intros Hin. pose proof (run_calls_status _ _ _ _ Hin) as Hs.
  split; [exact Hs|]. split.
  - destruct Hs as [-> | ->]; discriminate.
  - intros CommandHandler table. apply run_perform.
Qed.

Lemma C9_printLineError_status_witness :
  In (Call_printLineError (chars "ghi") STATUS_FLUSH_TO_EOL)
    (snd (run_calls AWAIT_LINE
            [poll_of (Overflow (chars "abc"));
             poll_of (Success (chars "ghi"))]))
  /\ (STATUS_FLUSH_TO_EOL = STATUS_BUFFER_OVERFLOW
      \/ STATUS_FLUSH_TO_EOL = STATUS_FLUSH_TO_EOL)
  /\ printLineError_branch STATUS_FLUSH_TO_EOL <> UnknownError_branch.
Proof.
  assert (Hin : In (Call_printLineError (chars "ghi") STATUS_FLUSH_TO_EOL)
                  (snd (run_calls AWAIT_LINE
                          [poll_of (Overflow (chars "abc"));
                           poll_of (Success (chars "ghi"))]))).
  { simpl. right. left. reflexivity. }
  split; [exact Hin|].
  destruct (C9_printLineError_status _ _ _ _ Hin) as (H1 & H2 & _).
  exact (conj H1 H2).
Defined.

(** ** The tokenizer *)

(** C3: for every delimiter string, every line and every capacity, the
    strings of [argv] are the first words of the line, a word being a
    maximal run of characters that are no delimiters, and [argc] counts
    them; no string of [argv] is empty or holds a delimiter. A line laid
    out as a run of delimiters followed by tokens, each with a run of
    delimiters behind it (not empty between two tokens), gives back these
    tokens: runs of delimiters collapse, and leading and trailing ones
    leave no trace; and the string of every line is such a layout. With
    space and tab as delimiters, "a  b<TAB>c"
    gives argc = 3 and the strings "a", "b", "c"; the empty line and any
    line of delimiters only give argc = 0. *)
Theorem C3_tokenizer_splits_on_delimiters :
  (forall (delims line : list ascii) (argvSize : nat),
     tokens delims line argvSize
     = take argvSize (words delims (until_nul line))
     /\ fst (fst (tokenize delims line argvSize))
        = length (tokens delims line argvSize)
     /\ Forall (fun w => is_token delims w = true)
          (tokens delims line argvSize))
  /\ (forall (delims lead : list ascii)
        (ws : list (list ascii * list ascii)) (argvSize : nat),
        all_delims delims lead = true ->
        well_separated delims ws = true ->
        tokens delims (lead ++ layout ws) argvSize
        = take argvSize (map fst ws))
  /\ (forall (delims line : list ascii),
        exists (lead : list ascii) (ws : list (list ascii * list ascii)),
          all_delims delims lead = true
          /\ well_separated delims ws = true
          /\ until_nul line = lead ++ layout ws
          /\ forall (argvSize : nat),
               tokens delims line argvSize = take argvSize (map fst ws))
  /\ (fst (fst (tokenize DELIMS (chars "a  b" ++ TAB :: chars "c")
                  ARGV_SIZE)) = 3
      /\ tokens DELIMS (chars "a  b" ++ TAB :: chars "c") ARGV_SIZE
         = [chars "a"; chars "b"; chars "c"])
  /\ fst (fst (tokenize DELIMS [] ARGV_SIZE)) = 0
  /\ (forall (delims line : list ascii) (argvSize : nat),
        all_delims delims line = true ->
        fst (fst (tokenize delims line argvSize)) = 0).
Proof.
  split.
  { intros delims line argvSize. split; [apply tokens_words|].
    split; [apply tokenize_argc|].
    rewrite tokens_words. apply Forall_take, words_tokens. }
  split; [intros; now apply tokens_layout|].
  split.
  { intros delims line.
    destruct (layout_exists delims (until_nul line)
                (nul_free_until_nul line))
      as (lead & ws & Hlead & Hws & Heq).
    exists lead, ws. repeat split; try assumption.
    intros argvSize. rewrite tokens_words, Heq.
    rewrite words_delims by assumption. now rewrite words_layout. }
  split; [split; reflexivity|].
  split; [reflexivity|].
  intros; now apply tokens_only_delims.
Qed.

(** "a  b<TAB>c" as a layout, and a line of delimiters only. *)
Lemma C3_tokenizer_splits_on_delimiters_witness :
  (all_delims DELIMS [] = true
   /\ well_separated DELIMS
        [(chars "a", chars "  "); (chars "b", [TAB]); (chars "c", [])]
      = true
   /\ tokens DELIMS
        ([] ++ layout
                 [(chars "a", chars "  "); (chars "b", [TAB]);
                  (chars "c", [])])
        ARGV_SIZE
      = take ARGV_SIZE [chars "a"; chars "b"; chars "c"])
  /\ (all_delims DELIMS (chars "  " ++ [TAB]) = true
      /\ fst (fst (tokenize DELIMS (chars "  " ++ [TAB]) ARGV_SIZE)) = 0).
Proof.
  destruct C3_tokenizer_splits_on_delimiters
    as (_ & Hlay & _ & _ & _ & Hdel).
  split.
  - split; [reflexivity|]. split; [reflexivity|].
    apply (Hlay DELIMS [] [(chars "a", chars "  "); (chars "b", [TAB]);
                           (chars "c", [])] ARGV_SIZE);
      reflexivity.
  - split; [reflexivity|]. apply Hdel. reflexivity.
Defined.

(** C4: a line of more than [ARGV_SIZE] = 10 tokens gives argc = 10 and,
    in [argv], its first ten tokens in order. The rest of the line is
    dropped without a trace: [tokenize] prints nothing (it has no
    events), and [runCommand] does on the line what it does on any line
    with the same first ten tokens. *)
Theorem C4_truncation_to_ARGV_SIZE (line : list ascii) :
  ARGV_SIZE < length (words DELIMS (until_nul line)) ->
  ARGV_SIZE = 10
  /\ fst (fst (tokenize DELIMS line ARGV_SIZE)) = ARGV_SIZE
  /\ tokens DELIMS line ARGV_SIZE
     = take ARGV_SIZE (words DELIMS (until_nul line))
  /\ forall (CommandHandler : Type)
       (table : list (DispatchRecord CommandHandler))
       (line2 : list ascii),
       take ARGV_SIZE (words DELIMS (until_nul line2))
       = take ARGV_SIZE (words DELIMS (until_nul line)) ->
       runCommand table line = runCommand table line2.
Proof.
  intros Hlong. split; [reflexivity|].
  split.
  { rewrite tokenize_argc, tokens_words. rewrite length_take. lia. }
  split; [apply tokens_words|].
  intros CommandHandler table line2 H.
  apply runCommand_same_tokens. now rewrite !tokens_words.
Qed.

(** A line of twelve tokens. *)
Lemma C4_truncation_to_ARGV_SIZE_witness :
  ARGV_SIZE
  < length (words DELIMS (until_nul (chars "1 2 3 4 5 6 7 8 9 10 11 12")))
  /\ fst (fst (tokenize DELIMS (chars "1 2 3 4 5 6 7 8 9 10 11 12")
                 ARGV_SIZE)) = ARGV_SIZE
  /\ tokens DELIMS (chars "1 2 3 4 5 6 7 8 9 10 11 12") ARGV_SIZE
     = [chars "1"; chars "2"; chars "3"; chars "4"; chars "5"; chars "6";
        chars "7"; chars "8"; chars "9"; chars "10"].
Proof.
  assert (Hlong : ARGV_SIZE
                  < length (words DELIMS
                              (until_nul
                                 (chars "1 2 3 4 5 6 7 8 9 10 11 12")))).
  { vm_compute. lia. }
  split; [exact Hlong|].
  destruct (C4_truncation_to_ARGV_SIZE _ Hlong) as (_ & Hargc & Htok & _).
  split; [exact Hargc|]. rewrite Htok. reflexivity.
Defined.

(** C10: a line that tokenizes to argc = 0 makes [runCommand] return at
    once: it has no events, so it calls no handler and prints nothing,
    and the coroutine that ran it has none either. *)
Theorem C10_empty_line_is_noop (CommandHandler : Type)
    (table : list (DispatchRecord CommandHandler)) (line : list ascii) :
  fst (fst (tokenize DELIMS line ARGV_SIZE)) = 0 ->
  runCommand table line = []
  /\ handler_calls (runCommand table line) = []
  /\ serial_text (runCommand table line) = []
  /\ runRoutine table AWAIT_LINE (poll_of (Success line)) = (AWAIT_LINE, []).
Proof.
  intros H. rewrite tokenize_argc in H.
  assert (Hrun : runCommand table line = []).
  { rewrite runCommand_tokens.
    now destruct (tokens DELIMS line ARGV_SIZE). }
  unfold runRoutine. cbn [runRoutine_calls poll_of flat_map perform].
  rewrite Hrun. auto.
Qed.

Lemma C10_empty_line_is_noop_witness :
  fst (fst (tokenize DELIMS (chars "  " ++ [TAB]) ARGV_SIZE)) = 0
  /\ runCommand (CommandHandler := nat)
       [mkDispatchRecord 1 (chars "list") (chars "[all]")]
       (chars "  " ++ [TAB])
     = [].
Proof.
  split; [reflexivity|].
  apply (C10_empty_line_is_noop nat
           [mkDispatchRecord 1 (chars "list") (chars "[all]")]
           (chars "  " ++ [TAB])).
  reflexivity.
Defined.

(** ** Dispatch *)

(** The strings of [argv] for a line whose first word is known. *)
Lemma tokens_first_word (line cmd : list ascii)
    (rest : list (list ascii)) :
  words DELIMS (until_nul line) = cmd :: rest ->
  tokens DELIMS line ARGV_SIZE = cmd :: take 9 rest.
Proof. intros H. now rewrite tokens_words, H. Qed.

(** The words of the line "<name> x y". *)
Lemma words_name_x_y (n : list ascii) :
  is_token DELIMS n = true ->
  words DELIMS (until_nul (n ++ chars " x y"))
  = [n; chars "x"; chars "y"].
Proof.
  intros Hn.
  rewrite until_nul_app by now apply (is_token_nul_free DELIMS).
  change (until_nul (chars " x y")) with (" "%char :: chars "x y").
  now rewrite words_token_delim by (assumption || reflexivity).
Qed.

(** A line whose first token is the name of a record, and not "help",
    calls the handler of the first record of that name with the tokens
    of the line. *)
Lemma runCommand_dispatch (CommandHandler : Type)
    (table : list (DispatchRecord CommandHandler)) (i : nat)
    (e : DispatchRecord CommandHandler) (line : list ascii)
    (rest : list (list ascii)) :
  words DELIMS (until_nul line) = name e :: rest ->
  name e <> chars "help" ->
  table !! i = Some e -> first_named table i (name e) ->
  runCommand table line
  = [Handler_call (handler e) (S (length (take 9 rest)))
       (name e :: take 9 rest)].
Proof.
  intros Hw Hhelp He Hfirst.
  rewrite runCommand_tokens, (tokens_first_word _ _ _ Hw).
  rewrite (proj2 (strcmp_eq_false _ _) Hhelp).
  now apply (dispatch_scan_first _ table i).
Qed.

(** C2, as the specification states it, fails for a record whose name is
    not one token: the line "set speed x y" has four tokens, the first
    of which, "set", is no name of the table, so the handler of the
    record named "set speed" is not called. *)
Lemma C2_counterexample_name_with_delimiter :
  let e := mkDispatchRecord 1 (chars "set speed") (chars "<n>") in
  name e <> chars "help"
  /\ runCommand [e] (name e ++ chars " x y")
     = [Serial_print (chars "Unknown command: ");
        Serial_println (chars "set")]
  /\ runCommand [e] (name e ++ chars " x y")
     <> [Handler_call (handler e) 3 [name e; chars "x"; chars "y"]].
Proof.
  cbv zeta. split; [discriminate|]. split; [reflexivity|].
  vm_compute. discriminate.
Qed.

(** C2 (amended): for every record of the table whose name is one token
    (not empty, free of delimiters and terminators), is not "help", and
    is the first of the table with that name, the line "<name> x y"
    makes [runCommand] call the handler of that record with argc = 3 and
    the strings "<name>", "x", "y", and do nothing else: no other handler
    is called, nothing is printed. *)
Theorem C2_dispatch_to_registered_handler (CommandHandler : Type)
    (table : list (DispatchRecord CommandHandler)) (i : nat)
    (e : DispatchRecord CommandHandler) :
  table !! i = Some e ->
  is_token DELIMS (name e) = true ->
  name e <> chars "help" ->
  first_named table i (name e) ->
  runCommand table (name e ++ chars " x y")
  = [Handler_call (handler e) 3 [name e; chars "x"; chars "y"]]
  /\ handler_calls (runCommand table (name e ++ chars " x y"))
     = [(handler e, 3, [name e; chars "x"; chars "y"])]
  /\ serial_text (runCommand table (name e ++ chars " x y")) = [].
Proof.
  intros He Htok Hhelp Hfirst.
  assert (Hrun : runCommand table (name e ++ chars " x y")
                 = [Handler_call (handler e) 3
                      [name e; chars "x"; chars "y"]]).
  { apply (runCommand_dispatch _ table i e _ [chars "x"; chars "y"]);
      try assumption.
    now apply words_name_x_y. }
  rewrite Hrun. auto.
Qed.

(** The second record of a table of two. *)
Lemma C2_dispatch_to_registered_handler_witness :
  let table :=
    [mkDispatchRecord 1 (chars "list") (chars "[all]");
     mkDispatchRecord 2 (chars "go") (chars "<speed> <time>")] in
  runCommand table (chars "go x y")
  = [Handler_call 2 3 [chars "go"; chars "x"; chars "y"]].
Proof.
  cbv zeta.
  apply (C2_dispatch_to_registered_handler nat
           [mkDispatchRecord 1 (chars "list") (chars "[all]");
            mkDispatchRecord 2 (chars "go") (chars "<speed> <time>")]
           1 (mkDispatchRecord 2 (chars "go") (chars "<speed> <time>"))).
  - reflexivity.
  - reflexivity.
  - discriminate.
  - intros [|j] e' Hj He'; [|lia]. injection He' as <-. discriminate.
Defined.

(** C5: when the first token of a line is not "help" and is the name of
    no record of the table, [runCommand] prints the one diagnostic
    "Unknown command: <token>" and calls no handler; the coroutine, which
    ran the line from the top of its loop, is back there. *)
Theorem C5_unknown_command (CommandHandler : Type)
    (table : list (DispatchRecord CommandHandler))
    (line cmd : list ascii) (rest : list (list ascii)) :
  words DELIMS (until_nul line) = cmd :: rest ->
  cmd <> chars "help" ->
  Forall (fun record => name record <> cmd) table ->
  runCommand table line
  = [Serial_print (chars "Unknown command: "); Serial_println cmd]
  /\ serial_text (runCommand table line)
     = chars "Unknown command: " ++ cmd ++ CRLF
  /\ handler_calls (runCommand table line) = []
  /\ runRoutine table AWAIT_LINE (poll_of (Success line))
     = (AWAIT_LINE,
        [Serial_print (chars "Unknown command: "); Serial_println cmd]).
Proof.
  intros Hw Hhelp Hnone.
  assert (Hrun : runCommand table line = unknown_command cmd).
  { rewrite runCommand_tokens, (tokens_first_word _ _ _ Hw).
    rewrite (proj2 (strcmp_eq_false _ _) Hhelp).
    now apply dispatch_scan_unknown. }
  split; [exact Hrun|]. split; [|split].
  - rewrite Hrun. cbn [unknown_command serial_text app].
    now rewrite app_nil_r.
  - now rewrite Hrun.
  - unfold runRoutine. cbn [runRoutine_calls poll_of flat_map perform].
    now rewrite Hrun.
Qed.

Lemma C5_unknown_command_witness :
  let table := [mkDispatchRecord 1 (chars "list") (chars "[all]")] in
  words DELIMS (until_nul (chars " lst  -v ")) = [chars "lst"; chars "-v"]
  /\ runCommand table (chars " lst  -v ")
     = [Serial_print (chars "Unknown command: ");
        Serial_println (chars "lst")].
Proof.
  cbv zeta. split; [reflexivity|].
  apply (C5_unknown_command nat
           [mkDispatchRecord 1 (chars "list") (chars "[all]")]
           (chars " lst  -v ") (chars "lst") [chars "-v"]).
  - reflexivity.
  - discriminate.
  - constructor; [discriminate|constructor].
Defined.

(** C6: when the first token of a line is "help", [runCommand] runs the
    built-in [helpCommandHandler] on the tokens and never scans the
    table for a handler: no handler is called, whatever the table holds,
    a record named "help" included. *)
Theorem C6_help_is_intercepted (CommandHandler : Type)
    (table : list (DispatchRecord CommandHandler))
    (line : list ascii) (rest : list (list ascii)) :
  words DELIMS (until_nul line) = chars "help" :: rest ->
  runCommand table line
  = helpCommandHandler table (S (length (take 9 rest)))
      (chars "help" :: take 9 rest)
  /\ handler_calls (runCommand table line) = [].
Proof.
  intros Hw.
  assert (Hrun : runCommand table line
                 = helpCommandHandler table (S (length (take 9 rest)))
                     (chars "help" :: take 9 rest)).
  { now rewrite runCommand_tokens, (tokens_first_word _ _ _ Hw). }
  split; [exact Hrun|]. rewrite Hrun. apply helpCommandHandler_no_call.
Qed.

(** A table with a record named "help": its handler is not called. *)
Lemma C6_help_is_intercepted_witness :
  let table :=
    [mkDispatchRecord 7 (chars "help") (chars "mine");
     mkDispatchRecord 1 (chars "list") (chars "[all]")] in
  words DELIMS (until_nul (chars "help")) = [chars "help"]
  /\ runCommand table (chars "help")
     = helpCommandHandler table 1 [chars "help"]
  /\ handler_calls (runCommand table (chars "help")) = [].
Proof.
  cbv zeta. split; [reflexivity|].
  apply (C6_help_is_intercepted nat
           [mkDispatchRecord 7 (chars "help") (chars "mine");
            mkDispatchRecord 1 (chars "list") (chars "[all]")]
           (chars "help") []).
  reflexivity.
Defined.

(** ** The built-in [help] *)

(** The strings of [argv] for the line "help <name>". *)
Lemma tokens_help_name (n : list ascii) :
  is_token DELIMS n = true ->
  tokens DELIMS (chars "help " ++ n) ARGV_SIZE = [chars "help"; n].
Proof.
  intros Hn. rewrite tokens_words.
  change (chars "help " ++ n) with (chars "help" ++ " "%char :: n).
  rewrite until_nul_nul_free.
  - rewrite words_token_delim by reflexivity.
    now rewrite words_token_end.
  - apply nul_free_app; [reflexivity|]. simpl.
    now apply (is_token_nul_free DELIMS).
Qed.

(** C7: [help] with no argument, and [helpCommandHandler] with any argc
    other than 2, prints the usage line of [help] and then, on one line,
    "Commands: help " and the name of every record in table order;
    [help help] prints the usage line of [help]; [help <name>], for a
    name other than "help", prints "Usage: <name> <helpString>" with the
    help string of the first record of that name, and "Unknown command:
    <name>" when the table has no record of that name. A line "help
    <name>" hands the handler argc = 2 and that name when the name is one
    token. *)
Theorem C7_help_command (CommandHandler : Type)
    (table : list (DispatchRecord CommandHandler)) :
  runCommand table (chars "help") = help_banner table
  /\ (forall (argc : nat) (argv : list (list ascii)),
        argc <> 2 -> helpCommandHandler table argc argv = help_banner table)
  /\ serial_text (help_banner table)
     = chars "Usage: help [command]" ++ CRLF ++ chars "Commands: help "
       ++ flat_map (fun record => name record ++ [" "%char]) table ++ CRLF
  /\ (forall (arg0 : list ascii),
        helpCommandHandler table 2 [arg0; chars "help"]
        = [Serial_println (chars "Usage: help [command]")])
  /\ (forall (arg0 : list ascii) (i : nat)
        (e : DispatchRecord CommandHandler),
        table !! i = Some e ->
        name e <> chars "help" ->
        first_named table i (name e) ->
        helpCommandHandler table 2 [arg0; name e]
        = [Serial_print (chars "Usage: "); Serial_print (name e);
           Serial_print [" "%char]; Serial_println (helpString e)]
        /\ serial_text (helpCommandHandler table 2 [arg0; name e])
           = chars "Usage: " ++ name e ++ [" "%char] ++ helpString e
             ++ CRLF)
  /\ (forall (arg0 n : list ascii),
        n <> chars "help" ->
        Forall (fun record => name record <> n) table ->
        helpCommandHandler table 2 [arg0; n]
        = [Serial_print (chars "Unknown command: "); Serial_println n])
  /\ (forall (n : list ascii),
        is_token DELIMS n = true ->
        runCommand table (chars "help " ++ n)
        = helpCommandHandler table 2 [chars "help"; n]).
Proof.
  assert (Hscan : forall arg0 n, n <> chars "help" ->
            helpCommandHandler table 2 [arg0; n] = help_scan table n).
  { intros arg0 n Hn. unfold helpCommandHandler.
    cbn -[strcmp_eq chars help_scan].
    now rewrite (proj2 (strcmp_eq_false _ _) Hn). }
  split; [reflexivity|].
  split.
  { intros argc argv Hargc. unfold helpCommandHandler.
    now rewrite (proj2 (Nat.eqb_neq argc 2) Hargc). }
  split; [apply help_banner_text|].
  split; [reflexivity|].
  split.
  { intros arg0 i e He Hhelp Hfirst.
    rewrite (Hscan _ _ Hhelp), (help_scan_first _ table i e He Hfirst).
    split; [reflexivity|].
    cbn [serial_text app]. now rewrite app_nil_r. }
  split.
  { intros arg0 n Hhelp Hnone. rewrite (Hscan _ _ Hhelp).
    now apply help_scan_unknown. }
  intros n Hn. now rewrite runCommand_tokens, tokens_help_name.
Qed.

Lemma C7_help_command_witness :
  let table :=
    [mkDispatchRecord 1 (chars "list") (chars "[all]");
     mkDispatchRecord 2 (chars "go") (chars "<speed> <time>")] in
  serial_text (helpCommandHandler table 3 [chars "help"; chars "a"; chars "b"])
  = chars "Usage: help [command]" ++ CRLF
    ++ chars "Commands: help list go " ++ CRLF
  /\ serial_text (helpCommandHandler table 2 [chars "help"; chars "go"])
     = chars "Usage: go <speed> <time>" ++ CRLF
  /\ helpCommandHandler table 2 [chars "help"; chars "stop"]
     = [Serial_print (chars "Unknown command: ");
        Serial_println (chars "stop")]
  /\ runCommand table (chars "help go")
     = helpCommandHandler table 2 [chars "help"; chars "go"].
Proof.
  cbv zeta.
  destruct (C7_help_command nat
              [mkDispatchRecord 1 (chars "list") (chars "[all]");
               mkDispatchRecord 2 (chars "go") (chars "<speed> <time>")])
    as (_ & Hargc & Htext & _ & Hfound & Hunknown & Hline).
  split.
  { rewrite Hargc by lia. rewrite Htext. reflexivity. }
  split.
  { apply (Hfound (chars "help") 1
             (mkDispatchRecord 2 (chars "go") (chars "<speed> <time>"))).
    - reflexivity.
    - discriminate.
    - intros [|j] e' Hj He'; [|lia]. injection He' as <-. discriminate. }
  split.
  { apply Hunknown; [discriminate|].
    repeat constructor; discriminate. }
  apply (Hline (chars "go")). reflexivity.
Defined.

(** ** The loop after an error *)

Section LoopFacts.

Variable CommandHandler : Type.
Variable table : list (DispatchRecord CommandHandler).

(** One more [getLine] result at the end of a run. *)
Lemma run_snoc (st : state) (rs : list poll) (r : poll) :
  run table st (rs ++ [r])
  = (fst (runRoutine table (fst (run table st rs)) r),
     snd (run table st rs)
     ++ snd (runRoutine table (fst (run table st rs)) r)).
Proof.
  rewrite run_app. cbn [run].
  destruct (runRoutine table (fst (run table st rs)) r) as [st1 evs1].
  cbn [fst snd]. now rewrite app_nil_r.
Qed.

(** A line without overflow, taken at the top of the loop. *)
Lemma runRoutine_success (line : list ascii) :
  runRoutine table AWAIT_LINE (poll_of (Success line))
  = (AWAIT_LINE, runCommand table line).
Proof. unfold runRoutine. simpl. now rewrite app_nil_r. Qed.

(** An oversized line from its first fragment to the line that ends
    it. *)
Lemma run_oversized (p : list ascii) (frags : list (list ascii))
    (t : list ascii) :
  run table AWAIT_LINE
    (map poll_of (Overflow p :: map Overflow frags ++ [Success t]))
  = (AWAIT_LINE,
     printLineError p STATUS_BUFFER_OVERFLOW
     ++ flat_map (fun l => printLineError l STATUS_FLUSH_TO_EOL)
          (frags ++ [t])).
Proof.
  change (map poll_of (Overflow p :: map Overflow frags ++ [Success t]))
    with ([poll_of (Overflow p)]
          ++ map poll_of (map Overflow frags ++ [Success t])).
  rewrite run_app.
  change (run table AWAIT_LINE [poll_of (Overflow p)])
    with (RECOVER_OVERFLOW,
          printLineError (CommandHandler := CommandHandler) p
            STATUS_BUFFER_OVERFLOW).
  cbn [fst snd]. now rewrite run_recover.
Qed.

(** A line whose first token is no command. *)
Lemma runCommand_unknown (line cmd : list ascii)
    (rest : list (list ascii)) :
  words DELIMS (until_nul line) = cmd :: rest ->
  cmd <> chars "help" ->
  Forall (fun record => name record <> cmd) table ->
  runCommand table line = unknown_command cmd.
Proof.
  intros Hw Hhelp Hnone.
  rewrite runCommand_tokens, (tokens_first_word _ _ _ Hw).
  rewrite (proj2 (strcmp_eq_false _ _) Hhelp).
  now apply dispatch_scan_unknown.
Qed.

(** A line without a token. *)
Lemma runCommand_no_token (line : list ascii) :
  words DELIMS (until_nul line) = [] -> runCommand table line = [].
Proof.
  intros Hw. now rewrite runCommand_tokens, tokens_words, Hw.
Qed.

End LoopFacts.

(** C8: a [Success] outcome leaves the coroutine at the top of its loop
    from either await point, and so does an oversized line of any number
    of fragments, a line whose first token is no command, and a line
    without a token. A well-formed line that follows - one whose first
    token is the name of a record, not "help" - is tokenized and
    dispatched as ever: the run gains exactly the call of the handler of
    the first record of that name, with the tokens of the line as [argv]
    and their number as [argc], and nothing else. This holds behind any
    history that ends at the top of the loop, behind an oversized line
    with its diagnostics, behind an unknown command with its diagnostic,
    behind an empty line, and behind any history whatever once one more
    [Success] outcome has come. The coroutine never ends: behind every
    history it rests at one of its two await points and takes the next
    [getLine] result. *)
Theorem C8_loop_reentrancy (CommandHandler : Type)
    (table : list (DispatchRecord CommandHandler)) :
  (forall (st : state) (line : list ascii),
     fst (runRoutine table st (poll_of (Success line))) = AWAIT_LINE)
  /\ (forall (line : list ascii),
        runRoutine table AWAIT_LINE (poll_of (Success line))
        = (AWAIT_LINE, runCommand table line))
  /\ (forall (p : list ascii) (frags : list (list ascii)) (t : list ascii),
        fst (feed table AWAIT_LINE
               (Overflow p :: map Overflow frags ++ [Success t]))
        = AWAIT_LINE)
  /\ (forall (history : list poll) (line : list ascii),
        fst (run table AWAIT_LINE history) = AWAIT_LINE ->
        run table AWAIT_LINE (history ++ [poll_of (Success line)])
        = (AWAIT_LINE,
           snd (run table AWAIT_LINE history) ++ runCommand table line))
  /\ (forall (history : list poll) (t line : list ascii),
        run table AWAIT_LINE
          (history ++ [poll_of (Success t); poll_of (Success line)])
        = (AWAIT_LINE,
           snd (run table AWAIT_LINE (history ++ [poll_of (Success t)]))
           ++ runCommand table line))
  /\ (forall (i : nat) (e : DispatchRecord CommandHandler)
        (line : list ascii) (rest : list (list ascii)),
        words DELIMS (until_nul line) = name e :: rest ->
        table !! i = Some e ->
        name e <> chars "help" ->
        first_named table i (name e) ->
        let dispatched :=
          Handler_call (handler e) (S (length (take 9 rest)))
            (name e :: take 9 rest) in
        tokens DELIMS line ARGV_SIZE = name e :: take 9 rest
        /\ (forall (history : list poll),
              fst (run table AWAIT_LINE history) = AWAIT_LINE ->
              run table AWAIT_LINE (history ++ [poll_of (Success line)])
              = (AWAIT_LINE,
                 snd (run table AWAIT_LINE history) ++ [dispatched]))
        /\ (forall (p : list ascii) (frags : list (list ascii))
              (t : list ascii),
              feed table AWAIT_LINE
                ((Overflow p :: map Overflow frags ++ [Success t])
                 ++ [Success line])
              = (AWAIT_LINE,
                 (printLineError p STATUS_BUFFER_OVERFLOW
                  ++ flat_map
                       (fun l => printLineError l STATUS_FLUSH_TO_EOL)
                       (frags ++ [t]))
                 ++ [dispatched]))
        /\ (forall (bad cmd : list ascii) (rest' : list (list ascii)),
              words DELIMS (until_nul bad) = cmd :: rest' ->
              cmd <> chars "help" ->
              Forall (fun record => name record <> cmd) table ->
              feed table AWAIT_LINE [Success bad; Success line]
              = (AWAIT_LINE,
                 [Serial_print (chars "Unknown command: ");
                  Serial_println cmd; dispatched]))
        /\ (forall (empty : list ascii),
              words DELIMS (until_nul empty) = [] ->
              feed table AWAIT_LINE [Success empty; Success line]
              = (AWAIT_LINE, [dispatched]))
        /\ (forall (history : list poll) (t : list ascii),
              run table AWAIT_LINE
                (history ++ [poll_of (Success t); poll_of (Success line)])
              = (AWAIT_LINE,
                 snd (run table AWAIT_LINE
                        (history ++ [poll_of (Success t)]))
                 ++ [dispatched])))
  /\ (forall (history : list poll) (r : poll),
        (fst (run table AWAIT_LINE history) = AWAIT_LINE
         \/ fst (run table AWAIT_LINE history) = RECOVER_OVERFLOW)
        /\ run table AWAIT_LINE (history ++ [r])
           = (fst (runRoutine table (fst (run table AWAIT_LINE history)) r),
              snd (run table AWAIT_LINE history)
              ++ snd (runRoutine table
                        (fst (run table AWAIT_LINE history)) r))).
Proof.
  assert (Hnext : forall history line,
            fst (run table AWAIT_LINE history) = AWAIT_LINE ->
            run table AWAIT_LINE (history ++ [poll_of (Success line)])
            = (AWAIT_LINE,
               snd (run table AWAIT_LINE history)
               ++ runCommand table line)).
  { intros history line H.
    now rewrite run_snoc, H, runRoutine_success. }
  assert (Hafter : forall history t line,
            run table AWAIT_LINE
              (history ++ [poll_of (Success t); poll_of (Success line)])
            = (AWAIT_LINE,
               snd (run table AWAIT_LINE (history ++ [poll_of (Success t)]))
               ++ runCommand table line)).
  { intros history t line.
    change (history ++ [poll_of (Success t); poll_of (Success line)])
      with (history ++ [poll_of (Success t)] ++ [poll_of (Success line)]).
    rewrite app_assoc. apply Hnext.
    rewrite run_snoc. cbn [fst]. apply runRoutine_success_state. }
  split; [apply runRoutine_success_state|].
  split; [apply runRoutine_success|].
  split; [intros p frags t; unfold feed; now rewrite run_oversized|].
  split; [exact Hnext|].
  split; [exact Hafter|].
  split.
  { intros i e line rest Hw He Hhelp Hfirst dispatched.
    assert (Hrun : runCommand table line = [dispatched]).
    { now apply (runCommand_dispatch _ table i e line rest). }
    split; [now apply tokens_first_word|].
    split; [intros history H; now rewrite Hnext, Hrun|].
    split.
    { intros p frags t. unfold feed. rewrite map_app.
      change (map poll_of [Success line]) with [poll_of (Success line)].
      rewrite Hnext, run_oversized by now rewrite run_oversized.
      now rewrite Hrun. }
    split.
    { intros bad cmd rest' Hbad Hcmd Hnone. unfold feed.
      change (map poll_of [Success bad; Success line])
        with ([] ++ [poll_of (Success bad); poll_of (Success line)]).
      rewrite Hafter. cbn [app run].
      rewrite runRoutine_success, Hrun.
      now rewrite (runCommand_unknown _ table bad cmd rest'). }
    split.
    { intros empty Hempty. unfold feed.
      change (map poll_of [Success empty; Success line])
        with ([] ++ [poll_of (Success empty); poll_of (Success line)]).
      rewrite Hafter. cbn [app run].
      rewrite runRoutine_success, Hrun.
      now rewrite (runCommand_no_token _ table empty). }
    intros history t. now rewrite Hafter, Hrun. }
  intros history r. split; [|apply run_snoc].
  destruct (fst (run table AWAIT_LINE history)); auto.
Qed.

(** A table of two commands; the line "go 9 30" behind an oversized
    line that is polled with pauses, behind an unknown command and
    behind a line of blanks calls the handler of "go". *)
Lemma C8_loop_reentrancy_witness :
  let table :=
    [mkDispatchRecord 1 (chars "list") (chars "[all]");
     mkDispatchRecord 2 (chars "go") (chars "<speed> <time>")] in
  let dispatched :=
    Handler_call 2 3 [chars "go"; chars "9"; chars "30"] in
  let history :=
    [poll_of (Overflow (chars "go 9 3")); None;
     poll_of (Success (chars "0 and more"))] in
  words DELIMS (until_nul (chars "go 9 30"))
  = [chars "go"; chars "9"; chars "30"]
  /\ fst (run table AWAIT_LINE history) = AWAIT_LINE
  /\ run table AWAIT_LINE (history ++ [poll_of (Success (chars "go 9 30"))])
     = (AWAIT_LINE, snd (run table AWAIT_LINE history) ++ [dispatched])
  /\ feed table AWAIT_LINE
       [Success (chars "stop now"); Success (chars "go 9 30")]
     = (AWAIT_LINE,
        [Serial_print (chars "Unknown command: ");
         Serial_println (chars "stop"); dispatched])
  /\ feed table AWAIT_LINE [Success (chars "   "); Success (chars "go 9 30")]
     = (AWAIT_LINE, [dispatched]).
Proof.
  cbv zeta.
  destruct (C8_loop_reentrancy nat
              [mkDispatchRecord 1 (chars "list") (chars "[all]");
               mkDispatchRecord 2 (chars "go") (chars "<speed> <time>")])
    as (_ & _ & _ & _ & _ & Hline & _).
  destruct (Hline 1 (mkDispatchRecord 2 (chars "go") (chars "<speed> <time>"))
              (chars "go 9 30") [chars "9"; chars "30"])
    as (_ & Hnext & _ & Hbad & Hempty & _).
  - reflexivity.
  - reflexivity.
  - discriminate.
  - intros [|j] e' Hj He'; [|lia]. injection He' as <-. discriminate.
  - split; [reflexivity|]. split; [reflexivity|].
    split; [apply Hnext; reflexivity|].
    split.
    + apply (Hbad (chars "stop now") (chars "stop") [chars "now"]).
      * reflexivity.
      * discriminate.
      * repeat constructor; discriminate.
    + apply Hempty. reflexivity.
Defined.

(** * Further properties *)

(** ** The line buffer under [strtok] *)

Section BufferFacts.

Variable delims : list ascii.

Lemma strspn_all_delims (s : list ascii) :
  all_delims delims (take (strspn delims s) s) = true.
Proof.
  induction s as [|c s IH]; simpl; [reflexivity|].
  destruct (is_delim delims c) eqn:E; simpl; [|reflexivity].
  now rewrite E.
Qed.

Lemma strcspn_nul_free (s : list ascii) :
  nul_free (take (strcspn delims s) s) = true.
Proof.
  induction s as [|c s IH]; simpl; [reflexivity|].
  destruct (Ascii.eqb c NUL) eqn:E; simpl; [reflexivity|].
  destruct (is_delim delims c); simpl; [reflexivity|].
  now rewrite E.
Qed.

Lemma strspn_le (s : list ascii) : strspn delims s <= length s.
Proof.
  induction s as [|c s IH]; simpl; [lia|].
  destruct (is_delim delims c); simpl; lia.
Qed.

Lemma strcspn_le (s : list ascii) : strcspn delims s <= length s.
Proof.
  induction s as [|c s IH]; simpl; [lia|].
  destruct (Ascii.eqb c NUL || is_delim delims c); simpl; lia.
Qed.

Lemma until_nul_idem (s : list ascii) : until_nul (until_nul s) = until_nul s.
Proof. apply until_nul_nul_free, nul_free_until_nul. Qed.

(** The string at the start of [s] ends at a terminator. *)
Lemma char_at_until_nul (s : list ascii) :
  char_at s (length (until_nul s)) = NUL.
Proof.
  induction s as [|c s IH]; simpl; [reflexivity|].
  destruct (Ascii.eqb c NUL) eqn:E; simpl; [|exact IH].
  now apply Ascii.eqb_eq in E.
Qed.

(** A prefix without terminator lies inside the string. *)
Lemma nul_free_prefix_le (s : list ascii) (p : nat) :
  nul_free (take p s) = true -> p <= length s ->
  p <= length (until_nul s).
Proof.
  intros Hn Hp. rewrite <- (take_drop p s) at 1.
  rewrite until_nul_app by exact Hn.
  rewrite length_app, length_take. lia.
Qed.

Lemma drop_eq_lookup (l1 l2 : list ascii) (p i : nat) :
  drop p l1 = drop p l2 -> p <= i -> l1 !! i = l2 !! i.
Proof.
  intros H Hi. replace i with (p + (i - p)) by lia.
  now rewrite <- !lookup_drop, H.
Qed.

Lemma drop_eq_further (l1 l2 : list ascii) (p q : nat) :
  drop p l1 = drop p l2 -> p <= q -> drop q l1 = drop q l2.
Proof.
  intros H Hq. replace q with (p + (q - p)) by lia.
  now rewrite <- !drop_drop, H.
Qed.

(** The three ways a call of [strtok] ends: no token; a token that runs
    up to the terminator; a token in front of a delimiter, which is
    overwritten. *)
Lemma strtok_shape (m m' : strtok_mem) (tok : option nat) :
  strtok delims None m = (tok, m') ->
  let b := save_ptr m + strspn delims (drop (save_ptr m) (buf m)) in
  let e := b + strcspn delims (drop b (buf m)) in
  (tok = None /\ m' = StrtokMem (buf m) b /\ char_at (buf m) b = NUL)
  \/ (tok = Some b /\ b < e /\ char_at (buf m) b <> NUL
      /\ m' = StrtokMem (buf m) e /\ char_at (buf m) e = NUL)
  \/ (tok = Some b /\ b < e /\ char_at (buf m) b <> NUL
      /\ e < length (buf m)
      /\ is_delim delims (char_at (buf m) e) = true
      /\ m' = StrtokMem (<[e := NUL]> (buf m)) (S e)).
Proof.
  intros H b e. unfold strtok in H. fold b in H. fold e in H.
  destruct (Ascii.eqb (char_at (buf m) b) NUL) eqn:Eb.
  { left. injection H as <- <-. now apply Ascii.eqb_eq in Eb. }
  assert (Hbn : char_at (buf m) b <> NUL).
  { intros E. rewrite E in Eb. discriminate. }
  assert (Hnd : is_delim delims (char_at (buf m) b) = false).
  { unfold b. rewrite <- char_at_drop. apply strspn_stop. }
  assert (Hlt : b < e).
  { pose proof (strcspn_token delims (drop b (buf m))) as Ht.
    rewrite char_at_drop, Nat.add_0_r in Ht. specialize (Ht Eb Hnd).
    unfold e. destruct (strcspn delims (drop b (buf m))); [|lia].
    rewrite take_0 in Ht. discriminate. }
  right. destruct (Ascii.eqb (char_at (buf m) e) NUL) eqn:Ee.
  - left. injection H as <- <-. apply Ascii.eqb_eq in Ee. auto.
  - right. injection H as <- <-.
    assert (Hd : is_delim delims (char_at (buf m) e) = true).
    { unfold e in *. rewrite <- char_at_drop in *.
      now apply strcspn_stop. }
    repeat split; try assumption.
    apply lookup_lt_is_Some. unfold char_at in Ee.
    destruct (buf m !! e); [eauto|discriminate].
Qed.

Lemma strtok_inv_start (line : list ascii) :
  strtok_inv delims line (StrtokMem line 0).
Proof.
  unfold strtok_inv. simpl. repeat split; auto. lia.
Qed.

(** A call of [strtok] keeps the invariant, and the token it returns is
    a piece of the line. *)
Lemma strtok_inv_step (line : list ascii) (m m' : strtok_mem)
    (tok : option nat) :
  strtok_inv delims line m ->
  strtok delims None m = (tok, m') ->
  strtok_inv delims line m' /\ save_ptr m <= save_ptr m' /\
  match tok with
  | None => True
  | Some b =>
      save_ptr m <= b /\ char_at (buf m) b <> NUL /\
      exists j, token_view line m' b j
  end.
Proof.
  intros (Hlen & Hsave & Hnul & Hdrop & Hbytes) H.
  apply strtok_shape in H. cbv zeta in H.
  set (s0 := save_ptr m) in *.
  rewrite Hdrop in H.
  set (k := strspn delims (drop s0 line)) in *.
  set (b := s0 + k) in *.
  assert (Hdb : drop b (buf m) = drop b line).
  { apply (drop_eq_further _ _ s0); [exact Hdrop|unfold b; lia]. }
  rewrite Hdb in H.
  set (j := strcspn delims (drop b line)) in *.
  set (e := b + j) in *.
  assert (Hk : k <= length line - s0).
  { unfold k. rewrite <- length_drop. apply strspn_le. }
  assert (Hj : j <= length line - b).
  { unfold j. rewrite <- length_drop. apply strcspn_le. }
  assert (Hnb : nul_free (take b line) = true).
  { unfold b. rewrite <- take_take_drop. apply nul_free_app; [exact Hnul|].
    apply (all_delims_nul_free delims). apply strspn_all_delims. }
  assert (Hne : nul_free (take e line) = true).
  { unfold e. rewrite <- take_take_drop. apply nul_free_app; [exact Hnb|].
    apply strcspn_nul_free. }
  destruct H as [(-> & -> & Hb)|[(-> & Hlt & Hbn & -> & He)
                                |(-> & Hlt & Hbn & Helt & Hd & ->)]].
  - (* no token *)
    split; [|simpl; split; [lia|exact I]].
    unfold strtok_inv. simpl. repeat split; auto. lia.
  - (* the token runs up to the terminator *)
    split; [|simpl; split; [lia|]].
    { unfold strtok_inv. simpl. repeat split; auto; [lia|].
      apply (drop_eq_further _ _ s0); [exact Hdrop|lia]. }
    split; [lia|]. split; [exact Hbn|]. exists j.
    unfold token_view. simpl. repeat split; try lia; [|exact He].
    unfold c_str. rewrite Hdb.
    apply (token_read_nul delims (drop b line)).
    fold j. rewrite char_at_drop. fold e.
    unfold char_at in *. rewrite <- (drop_eq_lookup _ _ s0 e Hdrop) by lia.
    now apply Ascii.eqb_eq.
  - (* the token ends at a delimiter, which becomes a terminator *)
    assert (Hle : buf m !! e = line !! e).
    { apply (drop_eq_lookup _ _ s0); [exact Hdrop|lia]. }
    assert (Hce : char_at (buf m) e = char_at line e).
    { unfold char_at. now rewrite Hle. }
    rewrite Hce in Hd.
    split; [|simpl; split; [lia|]].
    { unfold strtok_inv. simpl. rewrite length_insert.
      repeat split; auto; [lia| | |].
      - destruct (lookup_lt_is_Some_2 line e ltac:(lia)) as [c Hc].
        rewrite (take_S_r _ _ _ Hc). apply nul_free_app; [exact Hne|].
        unfold char_at in Hd. rewrite Hc in Hd. simpl in Hd.
        simpl. now rewrite (is_delim_not_NUL _ _ Hd).
      - rewrite drop_insert_lt by lia.
        apply (drop_eq_further _ _ s0); [exact Hdrop|lia].
      - intros i. destruct (decide (i = e)) as [->|Hie].
        + right. split; [exact Hd|]. now apply list_lookup_insert_eq.
        + rewrite list_lookup_insert_ne by auto. apply Hbytes. }
    split; [lia|]. split; [exact Hbn|]. exists j.
    unfold token_view. simpl. repeat split; try lia.
    + unfold c_str. fold e. unfold e. rewrite drop_insert_add, Hdb.
      apply (token_read_delim delims (drop b line)).
      fold j. rewrite char_at_drop. fold e. rewrite <- Hce.
      destruct (Ascii.eqb (char_at (buf m) e) NUL) eqn:E; [|reflexivity].
      apply Ascii.eqb_eq in E. rewrite Hce in E. rewrite E in Hd.
      now rewrite is_delim_NUL in Hd.
    + unfold char_at. now rewrite list_lookup_insert_eq.
Qed.

Lemma token_view_length (line : list ascii) (m : strtok_mem) (t j : nat) :
  token_view line m t j -> length (c_str (buf m) t) = j.
Proof.
  intros (_ & Hlen & _ & -> & _).
  rewrite length_take, length_drop. lia.
Qed.

(** A later call of [strtok] leaves a token alone. *)
Lemma token_view_step (line : list ascii) (m m' : strtok_mem)
    (tok : option nat) (t j : nat) :
  strtok delims None m = (tok, m') ->
  token_view line m t j -> token_view line m' t j.
Proof.
  intros H (Hj & Hlen & Hsave & Hstr & Hend).
  destruct (strtok_spec delims None _ _ _ H) as (Hle & Hkeep & _).
  simpl in Hle, Hkeep.
  destruct (Hkeep t (t + j) ltac:(lia) Hend) as [Hq Hi].
  unfold token_view. rewrite Hq. repeat split; auto. lia.
Qed.

Ltac no_lookup_in_nil :=
  match goal with
  | H : [] !! _ = Some _ |- _ => rewrite lookup_nil in H; discriminate H
  end.

Lemma tokenize_loop_head (room : nat) (token : option nat)
    (m m' : strtok_mem) (argv : list nat) (t : nat) :
  tokenize_loop delims room token m = (argv, m') ->
  argv !! 0 = Some t -> token = Some t.
Proof.
  destruct room as [|room], token as [t0|]; simpl;
    try (intros [= <- <-]; discriminate).
  destruct (strtok delims None m) as [token1 m1].
  destruct (tokenize_loop delims room token1 m1) as [argv1 m2].
  intros [= <- <-]. simpl. congruence.
Qed.

(** The rest of the loop leaves a token alone. *)
Lemma token_view_loop (line : list ascii) (room : nat) :
  forall (token : option nat) (m m' : strtok_mem) (argv : list nat)
         (t j : nat),
    tokenize_loop delims room token m = (argv, m') ->
    token_view line m t j -> token_view line m' t j.
Proof.
  induction room as [|room IH]; intros token m m' argv t j H Hview.
  - destruct token; injection H as <- <-; exact Hview.
  - destruct token as [b|]; [|injection H as <- <-; exact Hview].
    simpl in H.
    destruct (strtok delims None m) as [token1 m1] eqn:E1.
    destruct (tokenize_loop delims room token1 m1) as [argv1 m2] eqn:E2.
    injection H as <- <-.
    apply (IH _ _ _ _ _ _ E2).
    exact (token_view_step _ _ _ _ _ _ E1 Hview).
Qed.

(** The loop of [tokenize] keeps the invariant; every offset it stores is
    a token of the line, and it lies behind the end of the token stored
    in front of it. *)
Lemma tokenize_loop_views (line : list ascii) (room : nat) :
  forall (token : option nat) (m m' : strtok_mem) (argv : list nat),
    tokenize_loop delims room token m = (argv, m') ->
    strtok_inv delims line m ->
    (forall t, token = Some t -> exists j, token_view line m t j) ->
    strtok_inv delims line m'
    /\ (forall i t, argv !! i = Some t -> exists j, token_view line m' t j)
    /\ (forall i t t',
          argv !! i = Some t -> argv !! (S i) = Some t' ->
          t + length (c_str (buf m') t) < t').
Proof.
  induction room as [|room IH]; intros token m m' argv H Hinv Htok.
  - destruct token; injection H as <- <-; (split; [exact Hinv|]);
      split; intros; no_lookup_in_nil.
  - destruct token as [t|];
      [|injection H as <- <-; (split; [exact Hinv|]); split; intros;
        no_lookup_in_nil].
    simpl in H.
    destruct (strtok delims None m) as [token1 m1] eqn:E1.
    destruct (tokenize_loop delims room token1 m1) as [argv1 m2] eqn:E2.
    injection H as <- <-.
    destruct (Htok t eq_refl) as [j Hview].
    destruct (strtok_inv_step line _ _ _ Hinv E1) as (Hinv1 & Hle & Hnew).
    pose proof (token_view_step _ _ _ _ _ _ E1 Hview) as Hview1.
    assert (Htok1 : forall b, token1 = Some b ->
              exists j, token_view line m1 b j).
    { intros b ->. now destruct Hnew as (_ & _ & Hex). }
    destruct (IH _ _ _ _ E2 Hinv1 Htok1) as (Hinv2 & Hall & Hsorted).
    pose proof (token_view_loop _ _ _ _ _ _ _ _ E2 Hview1) as Hview2.
    split; [exact Hinv2|]. split.
    + intros [|i] t0 Ht0; [|now apply (Hall i)].
      injection Ht0 as <-. now exists j.
    + intros [|i] t0 t'; simpl; [|now apply Hsorted].
      intros [= <-] Ht'.
      apply (tokenize_loop_head _ _ _ _ _ _ E2) in Ht'. subst token1.
      destruct Hnew as (Hsb & Hbn & _).
      rewrite (token_view_length _ _ _ _ Hview2).
      destruct Hview as (_ & _ & Hsave & _ & Hend).
      assert (t + j <> t') by (intros <-; contradiction).
      lia.
Qed.

End BufferFacts.

(** ** [tokenize] and the line buffer *)

Section TokenizeBuffer.

Variable delims : list ascii.

(** What [tokenize] leaves behind, in terms of the final state of
    [strtok]. *)
Lemma tokenize_final_state (line : list ascii) (argvSize : nat) :
  exists m' : strtok_mem,
    snd (tokenize delims line argvSize) = buf m'
    /\ strtok_inv delims line m'
    /\ (forall i t,
          snd (fst (tokenize delims line argvSize)) !! i = Some t ->
          exists j, token_view line m' t j)
    /\ (forall i t t',
          snd (fst (tokenize delims line argvSize)) !! i = Some t ->
          snd (fst (tokenize delims line argvSize)) !! (S i) = Some t' ->
          t + length (c_str (buf m') t) < t').
Proof.
  unfold tokenize.
  change (strtok delims (Some 0) (StrtokMem line 0))
    with (strtok delims None (StrtokMem line 0)).
  destruct (strtok delims None (StrtokMem line 0)) as [token m] eqn:E1.
  destruct (tokenize_loop delims argvSize token m) as [argv m'] eqn:E2.
  destruct (strtok_inv_step delims line _ _ _ (strtok_inv_start delims line) E1)
    as (Hinv & _ & Hnew).
  assert (Htok : forall b, token = Some b ->
            exists j, token_view line m b j).
  { intros b ->. now destruct Hnew as (_ & _ & Hex). }
  destruct (tokenize_loop_views delims line _ _ _ _ _ E2 Hinv Htok)
    as (Hinv' & Hall & Hsorted).
  exists m'. simpl. auto.
Qed.

(** The string of the line after the first call of [strtok]: the
    delimiters in front and the first token. *)
Lemma first_strtok (line : list ascii) (m : strtok_mem) (b : nat) :
  strtok delims None (StrtokMem line 0) = (Some b, m) ->
  c_str (buf m) 0 = take b line ++ c_str (buf m) b
  /\ all_delims delims (take b line) = true
  /\ is_token delims (c_str (buf m) b) = true
  /\ exists i, 0 <= i <= save_ptr m /\ char_at (buf m) i = NUL.
Proof.
  intros H.
  destruct (strtok_spec delims None _ _ _ H) as (_ & _ & _ & Htok & Hex).
  pose proof (strtok_shape delims _ _ _ H) as Hshape.
  cbv zeta in Hshape. cbn [save_ptr buf] in Hshape.
  rewrite drop_0 in Hshape.
  set (k := strspn delims line) in *.
  assert (Hds : all_delims delims (take k line) = true)
    by apply strspn_all_delims.
  assert (Htake : take b (buf m) = take b line /\ b = k).
  { destruct Hshape as [(? & _)|[(Hb & _ & _ & -> & _)
                                |(Hb & _ & _ & _ & _ & ->)]];
      [discriminate| |]; injection Hb as ->; simpl; [auto|].
    split; [|reflexivity]. apply take_insert_ge. lia. }
  destruct Htake as [Htake ->].
  split; [|split; [exact Hds|split; [exact Htok|]]].
  - unfold c_str. rewrite drop_0.
    rewrite <- (take_drop k (buf m)) at 1.
    rewrite until_nul_app; [now rewrite Htake|].
    rewrite Htake. now apply (all_delims_nul_free delims).
  - destruct Hex as (i & Hi & Hnul). exists i. split; [lia|exact Hnul].
Qed.

End TokenizeBuffer.

(** X1: [tokenize] fills at most [argvSize] slots of [argv]: [argc] is
    the smaller of [argvSize] and the number of words of the line, and
    it is the number of offsets stored. *)
Theorem tokenize_argc_bound (delims line : list ascii) (argvSize : nat) :
  fst (fst (tokenize delims line argvSize))
  = Nat.min argvSize (length (words delims (until_nul line)))
  /\ fst (fst (tokenize delims line argvSize)) <= argvSize
  /\ length (snd (fst (tokenize delims line argvSize)))
     = fst (fst (tokenize delims line argvSize)).
Proof.
  assert (Hargc : fst (fst (tokenize delims line argvSize))
                  = Nat.min argvSize
                      (length (words delims (until_nul line)))).
  { now rewrite tokenize_argc, tokens_words, length_take. }
  split; [exact Hargc|]. split; [rewrite Hargc; lia|].
  unfold tokenize.
  destruct (strtok delims (Some 0) (StrtokMem line 0)) as [token m].
  now destruct (tokenize_loop delims argvSize token m).
Qed.

(** X2: [tokenize] changes the line buffer only by writing terminators
    over delimiters that lie inside the string of the line: the buffer
    keeps its length, and every byte is the byte of the line, or a
    terminator at a place where the line has a delimiter in front of its
    own terminator. *)
Theorem tokenize_writes_only_over_delimiters (delims line : list ascii)
    (argvSize : nat) :
  length (snd (tokenize delims line argvSize)) = length line
  /\ forall i,
       snd (tokenize delims line argvSize) !! i = line !! i
       \/ (i < length (until_nul line)
           /\ is_delim delims (char_at line i) = true
           /\ snd (tokenize delims line argvSize) !! i = Some NUL).
Proof.
  destruct (tokenize_final_state delims line argvSize)
    as (m' & -> & (Hlen & Hsave & Hnul & Hdrop & Hbytes) & _).
  split; [exact Hlen|]. intros i.
  destruct (decide (i < save_ptr m')) as [Hi|Hi].
  - destruct (Hbytes i) as [Heq|[Hd Hw]]; [now left|right].
    split; [|auto].
    pose proof (nul_free_prefix_le _ _ Hnul Hsave). lia.
  - left. apply (drop_eq_lookup _ _ (save_ptr m')); [exact Hdrop|lia].
Qed.

(** X3: every offset that [tokenize] stores in [argv] is a view into the
    line: the string read there after the call is the piece of the
    original line of that length at that offset, it is not empty and
    ends inside the string of the line, and the next offset of [argv]
    lies behind its terminator. *)
Theorem tokenize_argv_views (delims line : list ascii) (argvSize : nat)
    (i t : nat) :
  snd (fst (tokenize delims line argvSize)) !! i = Some t ->
  let w := c_str (snd (tokenize delims line argvSize)) t in
  w = take (length w) (drop t line)
  /\ 0 < length w
  /\ t + length w <= length (until_nul line)
  /\ forall t',
       snd (fst (tokenize delims line argvSize)) !! (S i) = Some t' ->
       t + length w < t'.
Proof.
  intros Ht.
  destruct (tokenize_final_state delims line argvSize)
    as (m' & Hbuf & (Hlen & Hsave & Hnul & _) & Hall & Hsorted).
  rewrite Hbuf. cbv zeta.
  destruct (Hall i t Ht) as [j Hview].
  rewrite (token_view_length _ _ _ _ Hview).
  destruct Hview as (Hj & Hjl & Hjs & Hstr & _).
  split; [exact Hstr|]. split; [exact Hj|]. split.
  - pose proof (nul_free_prefix_le _ _ Hnul Hsave). lia.
  - intros t' Ht'. specialize (Hsorted i t t' Ht Ht').
    rewrite Hstr, length_take, length_drop in Hsorted. lia.
Qed.

Lemma tokenize_argv_views_witness :
  snd (fst (tokenize DELIMS (chars " go  fast") ARGV_SIZE)) !! 0 = Some 1
  /\ c_str (snd (tokenize DELIMS (chars " go  fast") ARGV_SIZE)) 1
     = take 2 (drop 1 (chars " go  fast"))
  /\ (snd (fst (tokenize DELIMS (chars " go  fast") ARGV_SIZE)) !! 1
      = Some 5 -> 1 + 2 < 5).
Proof.
  assert (H0 : snd (fst (tokenize DELIMS (chars " go  fast") ARGV_SIZE)) !! 0
               = Some 1) by reflexivity.
  split; [exact H0|].
  destruct (tokenize_argv_views _ _ _ _ _ H0) as (Hw & _ & _ & Hnext).
  split; [exact Hw|exact (Hnext 5)].
Defined.

(** X4: [tokenize] uses the line up: read as a string afterwards, the
    buffer holds the first token of the line and nothing behind it, also
    when [argvSize] is 0. *)
Theorem tokenize_leaves_first_token (delims line : list ascii)
    (argvSize : nat) :
  words delims (until_nul (snd (tokenize delims line argvSize)))
  = take 1 (words delims (until_nul line)).
Proof.
  unfold tokenize.
  change (strtok delims (Some 0) (StrtokMem line 0))
    with (strtok delims None (StrtokMem line 0)).
  destruct (strtok delims None (StrtokMem line 0)) as [token m] eqn:E1.
  destruct (tokenize_loop delims argvSize token m) as [argv m'] eqn:E2.
  cbn [snd].
  destruct (strtok_spec delims None _ _ _ E1) as (_ & _ & Hspec).
  cbn [save_ptr buf] in Hspec.
  change (c_str line 0) with (until_nul line) in Hspec.
  destruct token as [b|].
  - destruct Hspec as (-> & _). cbn [take].
    destruct (first_strtok delims _ _ _ E1) as (Hstr & Hds & Htok & i & Hi & Hnul).
    change (until_nul (buf m')) with (c_str (buf m') 0).
    rewrite (tokenize_loop_preserves delims _ _ _ _ _ 0 i E2 Hi Hnul).
    rewrite Hstr, words_delims by exact Hds.
    now apply words_token_end.
  - rewrite Hspec. destruct argvSize; injection E2 as <- <-;
      pose proof (strtok_shape delims _ _ _ E1) as Hshape;
      cbv zeta in Hshape;
      destruct Hshape as [(_ & -> & _)|[(? & _)|(? & _)]];
      try discriminate; exact Hspec.
Qed.

(** X5: written out with one space behind each, the tokens of a line
    tokenize to themselves. *)
Theorem tokenize_round_trip (line : list ascii) (argvSize : nat) :
  tokens DELIMS
    (layout (map (fun w => (w, [" "%char])) (tokens DELIMS line argvSize)))
    argvSize
  = tokens DELIMS line argvSize.
Proof.
  assert (Hall : Forall (fun w => is_token DELIMS w = true)
                   (tokens DELIMS line argvSize)).
  { rewrite tokens_words. apply Forall_take, words_tokens. }
  assert (Hlen : length (tokens DELIMS line argvSize) <= argvSize).
  { rewrite tokens_words, length_take. lia. }
  pose proof (tokens_layout DELIMS []
                (map (fun w => (w, [" "%char])) (tokens DELIMS line argvSize))
                argvSize eq_refl) as H.
  cbn [app] in H. rewrite H.
  - rewrite map_map. cbn [fst]. rewrite map_id. now apply take_ge.
  - clear H Hlen. induction Hall as [|w ws Hw _ IH]; [reflexivity|].
    cbn [map well_separated]. rewrite Hw, IH. now destruct ws.
Qed.

(** ** What [runCommand] does with a line *)

Section RunCommandFacts.

Variable CommandHandler : Type.

(** The scan of [runCommand] ends in the call of the first record of
    the name, or in the diagnostic when there is none. *)
Lemma dispatch_scan_cases (records : list (DispatchRecord CommandHandler))
    (cmd : list ascii) (argc : nat) (argv : list (list ascii)) :
  (exists i e,
     records !! i = Some e /\ name e = cmd /\ first_named records i cmd
     /\ dispatch_scan records cmd argc argv
        = [Handler_call (handler e) argc argv])
  \/ (Forall (fun r => name r <> cmd) records
      /\ dispatch_scan records cmd argc argv = unknown_command cmd).
Proof.
  induction records as [|r records IH]; [right; split; [constructor|reflexivity]|].
  simpl. destruct (strcmp_eq (name r) cmd) eqn:E.
  - left. exists 0, r. apply strcmp_eq_true in E.
    repeat split; auto. intros j e Hj. lia.
  - apply strcmp_eq_false in E.
    destruct IH as [(i & e & Hi & Hn & Hfirst & Hscan)|[Hall Hscan]].
    + left. exists (S i), e. repeat split; auto.
      intros [|j] e' Hj He'; [now injection He' as <-|].
      apply (Hfirst j e'); [lia|exact He'].
    + right. split; [now constructor|exact Hscan].
Qed.

(** The scan of [helpCommandHandler] ends in the usage line of the first
    record of the name, or in the diagnostic when there is none. *)
Lemma help_scan_cases (records : list (DispatchRecord CommandHandler))
    (cmd : list ascii) :
  (exists i e,
     records !! i = Some e /\ name e = cmd /\ first_named records i cmd
     /\ help_scan records cmd
        = [Serial_print (chars "Usage: "); Serial_print cmd;
           Serial_print [" "%char]; Serial_println (helpString e)])
  \/ (Forall (fun r => name r <> cmd) records
      /\ help_scan records cmd = unknown_command cmd).
Proof.
  induction records as [|r records IH]; [right; split; [constructor|reflexivity]|].
  simpl. destruct (strcmp_eq (name r) cmd) eqn:E.
  - left. exists 0, r. apply strcmp_eq_true in E.
    repeat split; auto. intros j e Hj. lia.
  - apply strcmp_eq_false in E.
    destruct IH as [(i & e & Hi & Hn & Hfirst & Hscan)|[Hall Hscan]].
    + left. exists (S i), e. repeat split; auto.
      intros [|j] e' Hj He'; [now injection He' as <-|].
      apply (Hfirst j e'); [lia|exact He'].
    + right. split; [now constructor|exact Hscan].
Qed.

End RunCommandFacts.

(** X6: every call of a handler that [runCommand] makes is well formed:
    [argv] holds the tokens of the line, between one and [ARGV_SIZE] of
    them, none empty; [argc] is their number; and the handler is that of
    the first record of the table whose name is [argv[0]], a name other
    than "help". *)
Theorem runCommand_handler_call_well_formed (CommandHandler : Type)
    (table : list (DispatchRecord CommandHandler)) (line : list ascii)
    (h : CommandHandler) (argc : nat) (argv : list (list ascii)) :
  In (h, argc, argv) (handler_calls (runCommand table line)) ->
  argv = tokens DELIMS line ARGV_SIZE
  /\ argc = length argv
  /\ 1 <= argc <= ARGV_SIZE
  /\ Forall (fun w => is_token DELIMS w = true) argv
  /\ exists i e rest,
       table !! i = Some e /\ handler e = h
       /\ argv = name e :: rest
       /\ name e <> chars "help"
       /\ first_named table i (name e).
Proof.
  rewrite runCommand_tokens.
  pose proof (tokenize_argc_bound DELIMS line ARGV_SIZE) as (_ & Hle & _).
  rewrite tokenize_argc in Hle.
  assert (Hall : Forall (fun w => is_token DELIMS w = true)
                   (tokens DELIMS line ARGV_SIZE)).
  { rewrite tokens_words. apply Forall_take, words_tokens. }
  destruct (tokens DELIMS line ARGV_SIZE) as [|cmd args]; [intros []|].
  destruct (strcmp_eq cmd (chars "help")) eqn:E.
  { now rewrite helpCommandHandler_no_call. }
  apply strcmp_eq_false in E.
  destruct (dispatch_scan_cases _ table cmd (S (length args)) (cmd :: args))
    as [(i & e & Hi & Hn & Hfirst & ->)|[_ ->]]; [|intros []].
  intros [[= <- <- <-]|[]]. subst cmd.
  split; [reflexivity|]. split; [reflexivity|].
  split; [simpl in *; lia|]. split; [exact Hall|].
  exists i, e, args. auto.
Qed.

Lemma runCommand_handler_call_well_formed_witness :
  let table :=
    [mkDispatchRecord 1 (chars "list") (chars "[all]");
     mkDispatchRecord 2 (chars "go") (chars "<speed> <time>")] in
  In (2, 3, [chars "go"; chars "9"; chars "30"])
    (handler_calls (runCommand table (chars "go 9  30 ")))
  /\ [chars "go"; chars "9"; chars "30"]
     = tokens DELIMS (chars "go 9  30 ") ARGV_SIZE
  /\ 1 <= 3 <= ARGV_SIZE.
Proof.
  cbv zeta.
  assert (Hin : In (2, 3, [chars "go"; chars "9"; chars "30"])
                  (handler_calls
                     (runCommand
                        [mkDispatchRecord 1 (chars "list") (chars "[all]");
                         mkDispatchRecord 2 (chars "go")
                           (chars "<speed> <time>")]
                        (chars "go 9  30 ")))).
  { left. reflexivity. }
  split; [exact Hin|].
  destruct (runCommand_handler_call_well_formed _ _ _ _ _ _ Hin)
    as (Hargv & _ & Hargc & _).
  exact (conj Hargv Hargc).
Defined.

(** X7: on any line, [runCommand] either does nothing but call one
    handler, or calls no handler at all: no line reaches two handlers,
    and a line that reaches one prints nothing. *)
Theorem runCommand_one_handler_or_none (CommandHandler : Type)
    (table : list (DispatchRecord CommandHandler)) (line : list ascii) :
  (exists h argc argv,
     runCommand table line = [Handler_call h argc argv])
  \/ handler_calls (runCommand table line) = [].
Proof.
  rewrite runCommand_tokens.
  destruct (tokens DELIMS line ARGV_SIZE) as [|cmd args]; [now right|].
  destruct (strcmp_eq cmd (chars "help")).
  { right. apply helpCommandHandler_no_call. }
  destruct (dispatch_scan_cases _ table cmd (S (length args)) (cmd :: args))
    as [(i & e & _ & _ & _ & ->)|[_ ->]]; [left; eauto|now right].
Qed.

(** X8: the built-in help and the dispatch know the same commands: for a
    name that is one token and not "help", the line "help <name>" ends in
    "Unknown command" exactly when the line "<name>" does, which is when
    no record of the table has the name. *)
Theorem help_knows_what_dispatch_knows (CommandHandler : Type)
    (table : list (DispatchRecord CommandHandler)) (n : list ascii) :
  is_token DELIMS n = true ->
  n <> chars "help" ->
  (runCommand table (chars "help " ++ n) = unknown_command n
   <-> Forall (fun r => name r <> n) table)
  /\ (runCommand table n = unknown_command n
      <-> Forall (fun r => name r <> n) table).
Proof.
  intros Htok Hhelp.
  assert (Hline : runCommand table n = dispatch_scan table n 1 [n]).
  { rewrite runCommand_tokens, tokens_words.
    rewrite until_nul_nul_free by now apply (is_token_nul_free DELIMS).
    rewrite words_token_end by exact Htok. cbn [take ARGV_SIZE length].
    now rewrite (proj2 (strcmp_eq_false _ _) Hhelp). }
  assert (Hhelpline : runCommand table (chars "help " ++ n)
                      = help_scan table n).
  { rewrite runCommand_tokens, tokens_help_name by exact Htok.
    unfold helpCommandHandler. cbn -[strcmp_eq chars help_scan].
    rewrite (proj2 (strcmp_eq_true _ _) eq_refl).
    now rewrite (proj2 (strcmp_eq_false _ _) Hhelp). }
  rewrite Hline, Hhelpline. split; split.
  - destruct (help_scan_cases _ table n)
      as [(i & e & _ & _ & _ & ->)|[Hall _]]; [discriminate|auto].
  - apply help_scan_unknown.
  - destruct (dispatch_scan_cases _ table n 1 [n])
      as [(i & e & _ & _ & _ & ->)|[Hall _]]; [discriminate|auto].
  - apply dispatch_scan_unknown.
Qed.

Lemma help_knows_what_dispatch_knows_witness :
  let table := [mkDispatchRecord 1 (chars "list") (chars "[all]")] in
  (runCommand table (chars "help " ++ chars "stop")
   = unknown_command (chars "stop")
   <-> Forall (fun r => name r <> chars "stop") table)
  /\ (runCommand table (chars "stop") = unknown_command (chars "stop")
      <-> Forall (fun r => name r <> chars "stop") table).
Proof.
  cbv zeta.
  apply (help_knows_what_dispatch_knows nat
           [mkDispatchRecord 1 (chars "list") (chars "[all]")]
           (chars "stop")).
  - reflexivity.
  - discriminate.
Defined.

(** X9: what lies in the line buffer behind the terminator of the line
    has no effect: [runCommand] and [printLineError] do on the buffer
    what they do on the string in front of the terminator. *)
Theorem bytes_behind_terminator_ignored (CommandHandler : Type)
    (table : list (DispatchRecord CommandHandler))
    (s junk : list ascii) (statusCode : N) :
  runCommand table (s ++ NUL :: junk) = runCommand table s
  /\ printLineError (CommandHandler := CommandHandler)
       (s ++ NUL :: junk) statusCode
     = printLineError s statusCode.
Proof.
  split.
  - apply runCommand_same_tokens.
    now rewrite !tokens_words, until_nul_app_nul.
  - unfold printLineError, c_str. rewrite !drop_0.
    now rewrite until_nul_app_nul.
Qed.

(** ** The coroutine over whole runs *)

Section RunFacts.

Variable CommandHandler : Type.
Variable table : list (DispatchRecord CommandHandler).

Lemma run_calls_app (rs1 rs2 : list poll) :
  forall st,
    run_calls st (rs1 ++ rs2)
    = (fst (run_calls (fst (run_calls st rs1)) rs2),
       snd (run_calls st rs1)
       ++ snd (run_calls (fst (run_calls st rs1)) rs2)).
Proof.
  induction rs1 as [|r rs1 IH]; intros st; simpl.
  - now destruct (run_calls st rs2).
  - destruct (runRoutine_calls st r) as [st1 cs1].
    rewrite (IH st1). destruct (run_calls st1 rs1) as [st2 cs2]. simpl.
    destruct (run_calls st2 rs2) as [st3 cs3]. simpl.
    now rewrite app_assoc.
Qed.

Lemma run_calls_state (rs : list poll) :
  forall st, fst (run_calls st rs) = fst (run table st rs).
Proof. intros st. now rewrite run_perform. Qed.

Lemma ready_snoc (rs : list poll) (r : poll) :
  ready (rs ++ [r])
  = ready rs ++ match r with Some x => [x] | None => [] end.
Proof.
  unfold ready. rewrite omap_app. now destruct r.
Qed.

End RunFacts.

(** X10: a [getLine] that has no line yet is invisible: the coroutine
    ends at the same await point with the same events as on the
    delivered lines alone. *)
Theorem run_skips_not_ready (CommandHandler : Type)
    (table : list (DispatchRecord CommandHandler)) (st : state)
    (rs : list poll) :
  run table st rs = run table st (map Some (ready rs)).
Proof.
  revert st. induction rs as [|[x|] rs IH]; intros st; [reflexivity| |].
  - change (ready (Some x :: rs)) with (x :: ready rs).
    cbn [map run]. destruct (runRoutine table st (Some x)) as [st1 evs1].
    now rewrite IH.
  - change (ready (None :: rs)) with (ready rs). rewrite <- IH.
    apply (run_not_ready _ table [] rs st).
Qed.

(** X11: an oversized line of any number of fragments gives one
    BufferOverflow diagnostic, for the first fragment, and one FlushToEOL
    diagnostic for every further line up to and including the first one
    that is no overflow; no handler is called, and the coroutine is back
    at the top of its loop. *)
Theorem oversized_line_diagnostics (CommandHandler : Type)
    (table : list (DispatchRecord CommandHandler))
    (p : list ascii) (frags : list (list ascii)) (t : list ascii) :
  feed table AWAIT_LINE (Overflow p :: map Overflow frags ++ [Success t])
  = (AWAIT_LINE,
     printLineError p STATUS_BUFFER_OVERFLOW
     ++ flat_map (fun l => printLineError l STATUS_FLUSH_TO_EOL)
          (frags ++ [t]))
  /\ serial_text
       (snd (feed table AWAIT_LINE
               (Overflow p :: map Overflow frags ++ [Success t])))
     = chars "BufferOverflow: " ++ c_str p 0 ++ CRLF
       ++ flat_map (fun l => chars "FlushToEOL: " ++ c_str l 0 ++ CRLF)
            (frags ++ [t])
  /\ handler_calls
       (snd (feed table AWAIT_LINE
               (Overflow p :: map Overflow frags ++ [Success t])))
     = [].
Proof.
  assert (Hfeed :
    feed table AWAIT_LINE (Overflow p :: map Overflow frags ++ [Success t])
    = (AWAIT_LINE,
       printLineError p STATUS_BUFFER_OVERFLOW
       ++ flat_map (fun l => printLineError l STATUS_FLUSH_TO_EOL)
            (frags ++ [t]))).
  { unfold feed.
    change (map poll_of (Overflow p :: map Overflow frags ++ [Success t]))
      with ([poll_of (Overflow p)]
            ++ map poll_of (map Overflow frags ++ [Success t])).
    rewrite run_app.
    change (run table AWAIT_LINE [poll_of (Overflow p)])
      with (RECOVER_OVERFLOW,
            printLineError (CommandHandler := CommandHandler) p
              STATUS_BUFFER_OVERFLOW).
    cbn [fst snd]. now rewrite run_recover. }
  rewrite Hfeed. cbn [snd]. split; [reflexivity|]. clear Hfeed.
  rewrite serial_text_app, handler_calls_app.
  split.
  - change (serial_text
              (printLineError (CommandHandler := CommandHandler) p
                 STATUS_BUFFER_OVERFLOW))
      with (chars "BufferOverflow: " ++ c_str p 0 ++ CRLF).
    rewrite <- !app_assoc. do 3 f_equal.
    induction (frags ++ [t]) as [|l ls IH]; [reflexivity|].
    cbn [flat_map]. rewrite serial_text_app, IH.
    change (serial_text
              (printLineError (CommandHandler := CommandHandler) l
                 STATUS_FLUSH_TO_EOL))
      with (chars "FlushToEOL: " ++ c_str l 0 ++ CRLF).
    reflexivity.
  - change (handler_calls
              (printLineError (CommandHandler := CommandHandler) p
                 STATUS_BUFFER_OVERFLOW))
      with (@nil (CommandHandler * nat * list (list ascii))).
    cbn [app].
    induction (frags ++ [t]) as [|l ls IH]; [reflexivity|].
    cbn [flat_map]. now rewrite handler_calls_app, IH.
Qed.

(** X12: the await point at which the coroutine rests depends on the
    last delivered line only: inside the flush loop when that line was
    an overflow, at the top of the loop when it was not, and where it
    started when no line was delivered. *)
Theorem state_after_last_line (CommandHandler : Type)
    (table : list (DispatchRecord CommandHandler)) (st : state)
    (rs : list poll) :
  fst (run table st rs) = state_after st (last (ready rs)).
Proof.
  induction rs as [|r rs IH] using rev_ind; [reflexivity|].
  rewrite run_app, ready_snoc. cbn [fst].
  destruct r as [[isError l]|].
  - rewrite last_snoc. cbn [run]. unfold runRoutine.
    destruct (fst (run table st rs)), isError; reflexivity.
  - rewrite app_nil_r, <- IH. reflexivity.
Qed.

(** X13: lines that come without overflow are run as commands one after
    the other, in the order of their arrival, each once. *)
Theorem success_lines_run_in_order (CommandHandler : Type)
    (table : list (DispatchRecord CommandHandler))
    (lines : list (list ascii)) :
  feed table AWAIT_LINE (map Success lines)
  = (AWAIT_LINE, flat_map (runCommand table) lines).
Proof.
  unfold feed. induction lines as [|l lines IH]; [reflexivity|].
  cbn [map run flat_map]. unfold runRoutine.
  cbn [poll_of runRoutine_calls flat_map perform].
  rewrite IH. now rewrite app_nil_r.
Qed.

(** X14: every delivered line gets exactly one call - of [runCommand] or
    of [printLineError] - and the calls come in the order of the lines:
    no line is dropped without a trace, none is handled twice. *)
Theorem one_call_per_line (st : state) (rs : list poll) :
  map call_line (snd (run_calls st rs)) = map snd (ready rs).
Proof.
  revert st. induction rs as [|r rs IH]; intros st; [reflexivity|].
  cbn [run_calls].
  destruct (runRoutine_calls st r) as [st1 cs1] eqn:E1.
  specialize (IH st1). destruct (run_calls st1 rs) as [st2 cs2].
  cbn [snd] in *. rewrite map_app, IH.
  destruct r as [[isError l]|]; simpl in E1.
  - change (ready (Some (isError, l) :: rs)) with ((isError, l) :: ready rs).
    destruct st, isError; injection E1 as <- <-; reflexivity.
  - injection E1 as <- <-. reflexivity.
Qed.

(** X15: a line adds no handler call when it is an overflow, or when the
    line delivered before it was one: the fragments of an oversized line,
    its last piece included, are never run as commands, whatever they
    say. *)
Theorem oversized_line_calls_no_handler (CommandHandler : Type)
    (table : list (DispatchRecord CommandHandler)) (st : state)
    (rs : list poll) (isError : bool) (l : list ascii) :
  isError = true \/ (exists p, last (ready rs) = Some (true, p)) ->
  handler_calls (snd (run table st (rs ++ [Some (isError, l)])))
  = handler_calls (snd (run table st rs)).
Proof.
  intros H. rewrite run_app. cbn [snd].
  rewrite handler_calls_app, state_after_last_line.
  rewrite <- (app_nil_r (handler_calls (snd (run table st rs)))) at 2.
  f_equal. cbn [run]. unfold runRoutine.
  destruct H as [->|[p ->]].
  - destruct (state_after st (last (ready rs))); reflexivity.
  - destruct isError; reflexivity.
Qed.

Lemma oversized_line_calls_no_handler_witness :
  let table := [mkDispatchRecord 1 (chars "list") (chars "[all]")] in
  last (ready [Some (true, chars "list list list"); None])
  = Some (true, chars "list list list")
  /\ handler_calls
       (snd (run table AWAIT_LINE
               ([Some (true, chars "list list list"); None]
                ++ [Some (false, chars "list")])))
     = handler_calls
         (snd (run table AWAIT_LINE
                 [Some (true, chars "list list list"); None])).
Proof.
  cbv zeta. split; [reflexivity|].
  apply (oversized_line_calls_no_handler nat
           [mkDispatchRecord 1 (chars "list") (chars "[all]")]
           AWAIT_LINE [Some (true, chars "list list list"); None]
           false (chars "list")).
  right. exists (chars "list list list"). reflexivity.
Defined.

(** Only a line that came without overflow is run as a command. *)
Lemma run_calls_runCommand (rs : list poll) :
  forall (st : state) (line : list ascii),
    In (Call_runCommand line) (snd (run_calls st rs)) ->
    In (Some (false, line)) rs.
Proof.
  induction rs as [|r rs IH]; intros st line; [intros []|].
  cbn [run_calls]. destruct (runRoutine_calls st r) as [st1 cs1] eqn:E1.
  destruct (run_calls st1 rs) as [st2 cs2] eqn:E2. cbn [snd].
  intros [Hin|Hin]%in_app_or.
  - left. destruct r as [[isError l]|]; simpl in E1.
    + destruct st, isError; injection E1 as <- <-;
        destruct Hin as [Hin|[]]; try discriminate.
      now injection Hin as <-.
    + injection E1 as <- <-. destruct Hin.
  - right. apply (IH st1). now rewrite E2.
Qed.

(** X16: in any run of the coroutine, a handler is called only for a line
    that [getLine] delivered without overflow, and the call is one that
    [runCommand] makes on that line. *)
Theorem handler_calls_come_from_lines (CommandHandler : Type)
    (table : list (DispatchRecord CommandHandler)) (st : state)
    (rs : list poll) (h : CommandHandler) (argc : nat)
    (argv : list (list ascii)) :
  In (h, argc, argv) (handler_calls (snd (run table st rs))) ->
  exists line,
    In (Some (false, line)) rs
    /\ In (h, argc, argv) (handler_calls (runCommand table line)).
Proof.
  rewrite run_perform. cbn [snd].
  pose proof (run_calls_runCommand rs st) as Hrun.
  induction (snd (run_calls st rs)) as [|c cs IH]; [intros []|].
  cbn [flat_map]. rewrite handler_calls_app.
  intros [Hin|Hin]%in_app_or.
  - destruct c as [l statusCode|l].
    + unfold perform, printLineError in Hin.
      destruct (printLineError_branch statusCode); simpl in Hin;
        destruct Hin.
    + exists l. split; [apply Hrun; now left|exact Hin].
  - apply IH; [|exact Hin]. intros line Hl. apply Hrun. now right.
Qed.

Lemma handler_calls_come_from_lines_witness :
  let table := [mkDispatchRecord 1 (chars "list") (chars "[all]")] in
  In (1, 2, [chars "list"; chars "all"])
    (handler_calls
       (snd (run table AWAIT_LINE [None; Some (false, chars "list all")])))
  /\ exists line,
       In (Some (false, line)) [None; Some (false, chars "list all")]
       /\ In (1, 2, [chars "list"; chars "all"])
            (handler_calls (runCommand table line)).
Proof.
  cbv zeta.
  assert (Hin : In (1, 2, [chars "list"; chars "all"])
                  (handler_calls
                     (snd (run
                             [mkDispatchRecord 1 (chars "list")
                                (chars "[all]")]
                             AWAIT_LINE
                             [None; Some (false, chars "list all")])))).
  { left. reflexivity. }
  split; [exact Hin|].
  exact (handler_calls_come_from_lines _ _ _ _ _ _ _ Hin).
Defined.
